(** * qr_logo_overlay: geometry detection and overlay synthesis

    A shallow embedding of [qr_logo_overlay.py].  Python's [float] is IEEE-754
    binary64; it is modelled by the Standard Library's executable
    specification of binary floating point ([SpecFloat], instantiated at
    precision 53 and maximal exponent 1024), so every arithmetic step rounds
    exactly as the interpreter does.  Python's [int] is [Z]. *)

From Stdlib Require Import ZArith QArith Qabs List Sorted Bool Lia.
From Stdlib Require Import Floats.SpecFloat.
Import ListNotations.
Local Open Scope Z_scope.

(** ** Python floats *)

Module PyFloat.

Definition prec : Z := 53.
Definition emax : Z := 1024.

Definition float := spec_float.

(** [float(z)]: conversion of an integer, rounded to nearest-even. *)
Definition of_int (z : Z) : float := binary_normalize prec emax z 0 false.

Definition add : float -> float -> float := SFadd prec emax.
Definition sub : float -> float -> float := SFsub prec emax.
Definition mul : float -> float -> float := SFmul prec emax.
Definition div : float -> float -> float := SFdiv prec emax.
Definition ltb : float -> float -> bool := SFltb.
Definition leb : float -> float -> bool := SFleb.

(** Decimal literal [n/d] written in the source (for instance 0.2126 is
    [lit 2126 10000]): the binary64 nearest to the quotient. *)
Definition lit (n d : Z) : float := div (of_int n) (of_int d).

Definition is_zero (x : float) : bool :=
  match x with S754_zero _ => true | _ => false end.

(** [int(round(x))]: nearest integer, ties to even.  On an infinity or a NaN
    the interpreter raises; the model returns 0 there (the values rounded in
    this program are products and quotients of pixel-scale numbers). *)
Definition round (x : float) : Z :=
  match x with
  | S754_finite s m e =>
      let v :=
        match e with
        | Zneg p =>
            (* m / 2^p: quotient, remainder against half of 2^p *)
            let d := Z.shiftl 1 (Z.pos p) in
            let q := Z.shiftr (Z.pos m) (Z.pos p) in
            let r := Z.pos m - Z.shiftl q (Z.pos p) in
            match Z.compare (2 * r) d with
            | Lt => q
            | Gt => q + 1
            | Eq => if Z.even q then q else q + 1
            end
        | _ => Z.pos m * 2 ^ e
        end in
      if s then - v else v
  | _ => 0
  end.


(** Python's two-argument [min] on floats: the second operand wins only when
    it compares strictly below the first. *)
Definition min (a b : float) : float := if ltb b a then b else a.

End PyFloat.

Definition float : Type := PyFloat.float.

(** ** Utilities *)

Definition RGB : Type := Z * Z * Z.
Definition RGBA : Type := Z * Z * Z * Z.

Definition rgb_of (p : RGBA) : RGB := let '(r, g, b, _) := p in (r, g, b).
Definition alpha_of (p : RGBA) : Z := let '(_, _, _, a) := p in a.

Definition luminance_rgb (rgb : RGB) : float :=
  let '(r, g, b) := rgb in
  PyFloat.add
    (PyFloat.add (PyFloat.mul (PyFloat.lit 2126 10000) (PyFloat.of_int r))
                 (PyFloat.mul (PyFloat.lit 7152 10000) (PyFloat.of_int g)))
    (PyFloat.mul (PyFloat.lit 722 10000) (PyFloat.of_int b)).

Definition clamp (v lo hi : Z) : Z :=
  if v <? lo then lo else if v >? hi then hi else v.

(** ** Colour synthesis *)

Definition adjust_color_toward (rgb : RGB) (toward_dark : bool) (strength : float) : RGB :=
  let '(r, g, b) := rgb in
  let one := PyFloat.of_int 1 in
  let '(r', g', b') :=
    if toward_dark then
      (PyFloat.round (PyFloat.mul (PyFloat.of_int r) (PyFloat.sub one strength)),
       PyFloat.round (PyFloat.mul (PyFloat.of_int g) (PyFloat.sub one strength)),
       PyFloat.round (PyFloat.mul (PyFloat.of_int b) (PyFloat.sub one strength)))
    else
      (PyFloat.round (PyFloat.add (PyFloat.of_int r) (PyFloat.mul (PyFloat.of_int (255 - r)) strength)),
       PyFloat.round (PyFloat.add (PyFloat.of_int g) (PyFloat.mul (PyFloat.of_int (255 - g)) strength)),
       PyFloat.round (PyFloat.add (PyFloat.of_int b) (PyFloat.mul (PyFloat.of_int (255 - b)) strength)))
  in (clamp r' 0 255, clamp g' 0 255, clamp b' 0 255).

(** The blend strength [0.40] that [build_overlay] passes. *)
Definition blend_strength : float := PyFloat.lit 40 100.


(** ** Errors

    The source raises [ValueError] with five different messages and can hit
    a [ZeroDivisionError]; each is a constructor here.
    - [InvalidInput]: "QR image must be square when using --modules/--quiet override."
    - [NoModulesDetected]: "No modules detected in QR image (all flat)."
    - [NoDarkModulesDetected]: "No dark modules detected in QR image."
    - [ModuleSizeUnavailable]: "Unable to estimate module size from middle row."
    - [InvalidModuleCount]: "Detected non-positive module count." *)

Inductive error : Type :=
  | InvalidInput
  | NoModulesDetected
  | NoDarkModulesDetected
  | ModuleSizeUnavailable
  | InvalidModuleCount
  | ZeroDivisionError.

Inductive result (A : Type) : Type :=
  | Ok (a : A)
  | Err (e : error).
Arguments Ok {A} a.
Arguments Err {A} e.

Definition bind {A B : Type} (c : result A) (k : A -> result B) : result B :=
  match c with
  | Ok a => k a
  | Err e => Err e
  end.

Notation "x <- c ;; k" := (bind c (fun x => k))
  (at level 61, c at next level, right associativity).
Notation "' p <- c ;; k" := (bind c (fun x => let p := x in k))
  (at level 61, p pattern, c at next level, right associativity).

(** [a / b] on two ints (true division).  The operands are pixel and module
    counts, far below 2^53, so converting them to floats first is exact and
    the quotient is the correctly rounded one. *)
Definition int_truediv (a b : Z) : result float :=
  if b =? 0 then Err ZeroDivisionError
  else Ok (PyFloat.div (PyFloat.of_int a) (PyFloat.of_int b)).

(** [x / b] with a float dividend and an int divisor. *)
Definition float_int_truediv (x : float) (b : Z) : result float :=
  if b =? 0 then Err ZeroDivisionError else Ok (PyFloat.div x (PyFloat.of_int b)).

(** [x / y] with a float divisor. *)
Definition float_truediv (x y : float) : result float :=
  if PyFloat.is_zero y then Err ZeroDivisionError else Ok (PyFloat.div x y).

(** [range(lo, hi)]. *)
Fixpoint range_from (lo : Z) (n : nat) : list Z :=
  match n with
  | O => []
  | S k => lo :: range_from (lo + 1) k
  end.
Definition range (lo hi : Z) : list Z := range_from lo (Z.to_nat (hi - lo)).

Definition nthZ {A : Type} (l : list A) (i : Z) (d : A) : A := nth (Z.to_nat i) l d.
Definition lenZ {A : Type} (l : list A) : Z := Z.of_nat (length l).
Definition sumZ (l : list Z) : Z := fold_right Z.add 0 l.

(** ** Threshold selection (Otsu) *)

(** A grayscale array as [to_gray] returns it: rows of luminance bytes.  The
    flattening over white and the conversion to luminance are done by the
    imaging library; detection is a function of the resulting array. *)
Definition GrayArray : Type := list (list Z).

Definition count_eq (v : Z) (l : list Z) : Z :=
  lenZ (filter (fun x => x =? v) l).

(** [np.histogram(gray, bins=256, range=(0, 256))]: one bin per byte value. *)
Definition histogram (gray : GrayArray) : list Z :=
  map (fun v => count_eq v (concat gray)) (range 0 256).

(** [np.dot(np.arange(256), hist)]. *)
Fixpoint dot_arange (t : Z) (hist : list Z) : Z :=
  match hist with
  | [] => 0
  | h :: rest => t * h + dot_arange (t + 1) rest
  end.

(** [w_b * w_f * (m_b - m_f) ** 2] with [m_b = sum_b / w_b] and
    [m_f = (sum_total - sum_b) / w_f].  The counts are numpy 64-bit integers,
    far from wrapping for any array that fits in memory; the square is the
    correctly rounded product. *)
Definition var_between (w_b w_f sum_b sum_total : Z) : float :=
  let m_b := PyFloat.div (PyFloat.of_int sum_b) (PyFloat.of_int w_b) in
  let m_f := PyFloat.div (PyFloat.of_int (sum_total - sum_b)) (PyFloat.of_int w_f) in
  let d := PyFloat.sub m_b m_f in
  PyFloat.mul (PyFloat.of_int (w_b * w_f)) (PyFloat.mul d d).

Record otsu_state : Type := mk_otsu {
  w_b : Z;
  sum_b : Z;
  max_var : float;
  thresh : Z
}.

Definition otsu_init : otsu_state :=
  {| w_b := 0; sum_b := 0; max_var := PyFloat.of_int (-1); thresh := 128 |}.

(** The body of [for t in range(256)], over the bins from [t] on. *)
Fixpoint otsu_loop (total sum_total : Z) (bins : list Z) (t : Z) (st : otsu_state)
  : otsu_state :=
  match bins with
  | [] => st
  | h :: rest =>
      let w_b' := w_b st + h in
      if w_b' =? 0 then
        (* continue *)
        otsu_loop total sum_total rest (t + 1)
          {| w_b := w_b'; sum_b := sum_b st; max_var := max_var st; thresh := thresh st |}
      else
        let w_f := total - w_b' in
        if w_f =? 0 then
          (* break *)
          {| w_b := w_b'; sum_b := sum_b st; max_var := max_var st; thresh := thresh st |}
        else
          let sum_b' := sum_b st + t * h in
          let v := var_between w_b' w_f sum_b' sum_total in
          if PyFloat.ltb (max_var st) v then
            otsu_loop total sum_total rest (t + 1)
              {| w_b := w_b'; sum_b := sum_b'; max_var := v; thresh := t |}
          else
            otsu_loop total sum_total rest (t + 1)
              {| w_b := w_b'; sum_b := sum_b'; max_var := max_var st; thresh := thresh st |}
  end.

(** Otsu on a histogram whose pixel count is [total]. *)
Definition otsu_scan (hist : list Z) (total : Z) : otsu_state :=
  otsu_loop total (dot_arange 0 hist) hist 0 otsu_init.

Definition otsu_hist (hist : list Z) (total : Z) : Z :=
  thresh (otsu_scan hist total).

Definition otsu_threshold (gray : GrayArray) : Z :=
  otsu_hist (histogram gray) (lenZ (concat gray)).

(** ** QR geometry *)

Record QRGeometry : Type := mk_geo {
  n_modules : Z;
  qz_modules : Z;
  content_box : Z * Z * Z * Z;  (* (left, top, right, bottom) *)
  module_px : float;
  geo_thresh : Z;
  dark_is_lt : bool  (* true: dark = gray < thresh; false: dark = gray > thresh *)
}.

Definition geo_from_exact_dims (W H n qz : Z) : result QRGeometry :=
  if negb (W =? H) then Err InvalidInput
  else
    let total := n + 2 * qz in
    mpx <- int_truediv W total ;;
    let left := PyFloat.round (PyFloat.mul (PyFloat.of_int qz) mpx) in
    let top := PyFloat.round (PyFloat.mul (PyFloat.of_int qz) mpx) in
    let right := PyFloat.round (PyFloat.mul (PyFloat.of_int (qz + n)) mpx) - 1 in
    let bottom := PyFloat.round (PyFloat.mul (PyFloat.of_int (qz + n)) mpx) - 1 in
    Ok {| n_modules := n;
          qz_modules := qz;
          content_box := (left, top, right, bottom);
          module_px := mpx;
          geo_thresh := 128;
          dark_is_lt := true |}.

(** Boolean masks [gray < t] and [gray > t]. *)
Definition mask_lt (gray : GrayArray) (t : Z) : list (list bool) :=
  map (map (fun v => v <? t)) gray.
Definition mask_gt (gray : GrayArray) (t : Z) : list (list bool) :=
  map (map (fun v => v >? t)) gray.

(** [int(mask.sum())]. *)
Definition mask_count (m : list (list bool)) : Z :=
  lenZ (filter (fun b => b) (concat m)).

(** [np.where(mask)]: the (y, x) coordinates of the set pixels, row-major. *)
Fixpoint row_where (y x : Z) (row : list bool) : list (Z * Z) :=
  match row with
  | [] => []
  | b :: rest => (if b then [(y, x)] else []) ++ row_where y (x + 1) rest
  end.
Fixpoint mask_where (y : Z) (m : list (list bool)) : list (Z * Z) :=
  match m with
  | [] => []
  | row :: rest => row_where y 0 row ++ mask_where (y + 1) rest
  end.

Definition list_min (d : Z) (l : list Z) : Z :=
  match l with [] => d | x :: r => fold_left Z.min r x end.
Definition list_max (d : Z) (l : list Z) : Z :=
  match l with [] => d | x :: r => fold_left Z.max r x end.

(** Run lengths of the [True] stretches of a row, left to right. *)
Fixpoint run_loop (vs : list bool) (cur : bool) (cnt : Z) (runs : list Z) : list Z :=
  match vs with
  | [] => if cur then runs ++ [cnt] else runs
  | v :: vs' =>
      if Bool.eqb v cur then run_loop vs' cur (cnt + 1) runs
      else run_loop vs' v 1 (if cur then runs ++ [cnt] else runs)
  end.
Definition dark_runs (row : list bool) : list Z :=
  match row with
  | [] => []
  | cur :: rest => run_loop rest cur 1 []
  end.

(** [sorted(runs)]. *)
Fixpoint insert_sorted (x : Z) (l : list Z) : list Z :=
  match l with
  | [] => [x]
  | y :: r => if x <=? y then x :: l else y :: insert_sorted x r
  end.
Definition sorted (l : list Z) : list Z := fold_right insert_sorted [] l.

(** [float(np.median(l))] of a non-empty ascending list. *)
Definition median (l : list Z) : float :=
  let k := lenZ l in
  if Z.even k then
    PyFloat.div (PyFloat.add (PyFloat.of_int (nthZ l (k / 2 - 1) 0))
                             (PyFloat.of_int (nthZ l (k / 2) 0)))
                (PyFloat.of_int 2)
  else PyFloat.of_int (nthZ l (k / 2) 0).

(** [row[a:b]] for [0 <= a]. *)
Definition slice {A : Type} (l : list A) (a b : Z) : list A :=
  firstn (Z.to_nat (b - a)) (skipn (Z.to_nat a) l).

(** [int(round(extent / module_px))]. *)
Definition count_along (extent : Z) (mpx : float) : result Z :=
  q <- float_truediv (PyFloat.of_int extent) mpx ;;
  Ok (PyFloat.round q).

(** [int(round((n_w + n_h) / 2)) if n_w != n_h else n_w]. *)
Definition merge_counts (n_w n_h : Z) : result Z :=
  if negb (n_w =? n_h) then
    q <- int_truediv (n_w + n_h) 2 ;;
    Ok (PyFloat.round q)
  else Ok n_w.

Definition detect_qr_geometry (W H : Z) (gray : GrayArray) (qr_threshold : option Z)
  : result QRGeometry :=
  let t := match qr_threshold with Some t => t | None => otsu_threshold gray end in
  let bin_lt := mask_lt gray t in
  let bin_gt := mask_gt gray t in
  let c_lt := mask_count bin_lt in
  let c_gt := mask_count bin_gt in
  if (c_lt =? 0) && (c_gt =? 0) then Err NoModulesDetected
  else
    let use_lt := (c_lt >=? c_gt) && (c_lt >? 0) in
    let bin_black := if use_lt then bin_lt else bin_gt in
    let yxs := mask_where 0 bin_black in
    '(bin_black, yxs) <-
      (if lenZ yxs =? 0 then
         let tweak := 10 in
         let bin_black :=
           if use_lt then mask_lt gray (Z.min 255 (t + tweak))
           else mask_gt gray (Z.max 0 (t - tweak)) in
         let yxs := mask_where 0 bin_black in
         if lenZ yxs =? 0 then Err NoDarkModulesDetected else Ok (bin_black, yxs)
       else Ok (bin_black, yxs)) ;;
    let xs := map snd yxs in
    let ys := map fst yxs in
    let left := list_min 0 xs in
    let right := list_max 0 xs in
    let top := list_min 0 ys in
    let bottom := list_max 0 ys in
    let content_w := right - left + 1 in
    let content_h := bottom - top + 1 in
    let mid_y := (top + bottom) / 2 in
    let row := slice (nthZ bin_black mid_y []) left (right + 1) in
    let runs := dark_runs row in
    if lenZ runs =? 0 then Err ModuleSizeUnavailable
    else
      let runs_sorted := sorted runs in
      let lower := firstn (Z.to_nat (Z.max 1 (lenZ runs_sorted / 2))) runs_sorted in
      let mpx := median lower in
      n_w <- count_along content_w mpx ;;
      n_h <- count_along content_h mpx ;;
      n <- merge_counts n_w n_h ;;
      if n <=? 0 then Err InvalidModuleCount
      else
        let qz_px := Z.min (Z.min (Z.min left top) (W - 1 - right)) (H - 1 - bottom) in
        q <- float_truediv (PyFloat.of_int qz_px) mpx ;;
        let qz := Z.max 0 (PyFloat.round q) in
        Ok {| n_modules := n;
              qz_modules := qz;
              content_box := (left, top, right, bottom);
              module_px := mpx;
              geo_thresh := t;
              dark_is_lt := use_lt |}.

(** ** Bitmaps *)

(** An RGBA bitmap: its size and [getpixel((x, y))]. *)
Record Image : Type := mk_image {
  width : Z;
  height : Z;
  getpixel : Z -> Z -> RGBA
}.

(** ** Module sampling *)

Definition half : float := PyFloat.lit 5 10.
Definition one : float := PyFloat.of_int 1.

Definition sample_qr_module_dark (qr_img : Image) (geo : QRGeometry)
  (_qr_threshold_unused : option Z) (row col : Z) : result bool :=
  let '(x_left, y_top, x_right, y_bottom) := content_box geo in
  let n := n_modules geo in
  module_w <- int_truediv (x_right - x_left + 1) n ;;
  module_h <- int_truediv (y_bottom - y_top + 1) n ;;
  let cx := PyFloat.round (PyFloat.add (PyFloat.of_int x_left)
              (PyFloat.mul (PyFloat.add (PyFloat.of_int col) half) module_w)) in
  let cy := PyFloat.round (PyFloat.add (PyFloat.of_int y_top)
              (PyFloat.mul (PyFloat.add (PyFloat.of_int row) half) module_h)) in
  let cx := clamp cx 0 (width qr_img - 1) in
  let cy := clamp cy 0 (height qr_img - 1) in
  let '(r, g, b, _) := getpixel qr_img cx cy in
  let gray := PyFloat.round
    (PyFloat.add
       (PyFloat.add (PyFloat.mul (PyFloat.lit 299 1000) (PyFloat.of_int r))
                    (PyFloat.mul (PyFloat.lit 587 1000) (PyFloat.of_int g)))
       (PyFloat.mul (PyFloat.lit 114 1000) (PyFloat.of_int b))) in
  Ok (if dark_is_lt geo then gray <? geo_thresh geo else gray >? geo_thresh geo).

(** ** Finder patterns *)

Definition in_finder (n r c : Z) : bool :=
  if ((0 <=? r) && (r <=? 6)) && ((0 <=? c) && (c <=? 6)) then true
  else if ((0 <=? r) && (r <=? 6)) && ((n - 7 <=? c) && (c <=? n - 1)) then true
  else if ((n - 7 <=? r) && (r <=? n - 1)) && ((0 <=? c) && (c <=? 6)) then true
  else false.

(** ** Overlay drawing *)

Definition cell_bounds (Lw Lh total_modules qz row col : Z) : result (Z * Z * Z * Z) :=
  f <- float_int_truediv one total_modules ;;
  let Ctot := col + qz in
  let Rtot := row + qz in
  let x0 := PyFloat.round (PyFloat.mul (PyFloat.mul (PyFloat.of_int Ctot) f) (PyFloat.of_int Lw)) in
  let y0 := PyFloat.round (PyFloat.mul (PyFloat.mul (PyFloat.of_int Rtot) f) (PyFloat.of_int Lh)) in
  let x1 := PyFloat.round (PyFloat.mul (PyFloat.mul (PyFloat.of_int (Ctot + 1)) f) (PyFloat.of_int Lw)) - 1 in
  let y1 := PyFloat.round (PyFloat.mul (PyFloat.mul (PyFloat.of_int (Rtot + 1)) f) (PyFloat.of_int Lh)) - 1 in
  Ok (x0, y0, x1, y1).

Definition center_xy (total_modules logo_w logo_h r c : Z) : result (Z * Z) :=
  f <- float_int_truediv one total_modules ;;
  let cx := PyFloat.round (PyFloat.mul (PyFloat.mul (PyFloat.add (PyFloat.of_int c) half) f)
                                       (PyFloat.of_int logo_w)) in
  let cy := PyFloat.round (PyFloat.mul (PyFloat.mul (PyFloat.add (PyFloat.of_int r) half) f)
                                       (PyFloat.of_int logo_h)) in
  Ok (clamp cx 0 (logo_w - 1), clamp cy 0 (logo_h - 1)).

(** [luminance_rgb(rgb) < thr]. *)
Definition lum_below (rgb : RGB) (thr : Z) : bool :=
  PyFloat.ltb (luminance_rgb rgb) (PyFloat.of_int thr).

Definition is_dark_rgba (thr : Z) (px : RGBA) : bool :=
  let '(r, g, b, a) := px in
  if a <? 10 then false  (* transparent = light *)
  else lum_below (r, g, b) thr.

(** The offsets [(dr, dc, d2)] in the order the two nested loops append them. *)
Definition offsets (radius : Z) : list (Z * Z * Z) :=
  flat_map (fun dr =>
    flat_map (fun dc =>
      if (dr =? 0) && (dc =? 0) then []
      else [(dr, dc, dr * dr + dc * dc)])
      (range (- radius) (radius + 1)))
    (range (- radius) (radius + 1)).

Definition d2_of (o : Z * Z * Z) : Z := snd o.

(** [offsets.sort(key=lambda t: t[2])]: the sort is stable, so an offset
    goes in front of the first one whose key is not smaller. *)
Fixpoint insert_offset (o : Z * Z * Z) (l : list (Z * Z * Z)) : list (Z * Z * Z) :=
  match l with
  | [] => [o]
  | p :: rest => if d2_of o <=? d2_of p then o :: l else p :: insert_offset o rest
  end.
Definition sort_offsets (l : list (Z * Z * Z)) : list (Z * Z * Z) :=
  fold_right insert_offset [] l.

(** The test applied to a neighbour's pixel. *)
Definition neighbor_ok (thr : Z) (want_dark : bool) (npix : RGBA) : bool :=
  Bool.eqb (lum_below (rgb_of npix) thr) want_dark && (alpha_of npix >=? 10).

(** The loop over the sorted offsets. *)
Fixpoint search_neighbors (logo_img : Image) (logo_w logo_h total R C : Z)
  (want_dark : bool) (thr : Z) (offs : list (Z * Z * Z)) : result (option RGBA) :=
  match offs with
  | [] => Ok None
  | (dr, dc, _) :: rest =>
      let nr := R + dr in
      let nc := C + dc in
      if negb (((0 <=? nr) && (nr <? total)) && ((0 <=? nc) && (nc <? total))) then
        search_neighbors logo_img logo_w logo_h total R C want_dark thr rest
      else
        '(nx, ny) <- center_xy total logo_w logo_h nr nc ;;
        let npix := getpixel logo_img nx ny in
        if neighbor_ok thr want_dark npix then Ok (Some npix)
        else search_neighbors logo_img logo_w logo_h total R C want_dark thr rest
  end.

Definition pick_logo_color (logo_img : Image) (logo_w logo_h total_modules qz row col : Z)
  (want_dark : bool) (thr radius : Z) : result (option RGBA) :=
  let R := row + qz in
  let C := col + qz in
  '(cx, cy) <- center_xy total_modules logo_w logo_h R C ;;
  let px := getpixel logo_img cx cy in
  let dark := is_dark_rgba thr px in
  let ok := Bool.eqb dark want_dark in
  if ok then Ok (Some px)
  else
    search_neighbors logo_img logo_w logo_h total_modules R C want_dark thr
      (sort_offsets (offsets radius)).

(** [Image.new("RGBA", (Lw, Lh), (0, 0, 0, 0))]. *)
Definition new_overlay (Lw Lh : Z) : Image :=
  {| width := Lw; height := Lh; getpixel := fun _ _ => (0, 0, 0, 0) |}.

(** [draw.rectangle([x0, y0, x1, y1], fill=pix)]: both corners inclusive. *)
Definition draw_rectangle (overlay : Image) (xy : Z * Z * Z * Z) (fill : RGBA) : Image :=
  let '(x0, y0, x1, y1) := xy in
  {| width := width overlay;
     height := height overlay;
     getpixel := fun x y =>
       if ((x0 <=? x) && (x <=? x1)) && ((y0 <=? y) && (y <=? y1)) then fill
       else getpixel overlay x y |}.

(** The search of the 7x7 pixel neighbourhood for an opaque pixel: the first
    one in the order of the two loops ([dy] outer, [dx] inner). *)
Definition find_opaque (logo : Image) (Lw Lh cx cy : Z) : option RGBA :=
  find (fun p => alpha_of p >=? 10)
    (flat_map (fun dy =>
       map (fun dx => getpixel logo (clamp (cx + dx) 0 (Lw - 1)) (clamp (cy + dy) 0 (Lh - 1)))
         (range (-3) 4))
       (range (-3) 4)).

(** The [if pix is None] branch of [build_overlay]. *)
Definition synthesize_color (logo : Image) (Lw Lh total_modules qz row col : Z)
  (want_dark : bool) (alpha : Z) : result RGBA :=
  let R := row + qz in
  let C := col + qz in
  f <- float_int_truediv one total_modules ;;
  let cx := PyFloat.round (PyFloat.mul (PyFloat.mul (PyFloat.add (PyFloat.of_int C) half) f)
                                       (PyFloat.of_int Lw)) in
  let cy := PyFloat.round (PyFloat.mul (PyFloat.mul (PyFloat.add (PyFloat.of_int R) half) f)
                                       (PyFloat.of_int Lh)) in
  let cx := clamp cx 0 (Lw - 1) in
  let cy := clamp cy 0 (Lh - 1) in
  let base := getpixel logo cx cy in
  let base :=
    if alpha_of base <? 10 then
      match find_opaque logo Lw Lh cx cy with
      | Some found => found
      | None => (0, 0, 0, 255)
      end
    else base in
  let '(r, g, b) := adjust_color_toward (rgb_of base) want_dark blend_strength in
  Ok (r, g, b, alpha).

(** The mini-square of a module that is not in a finder pattern. *)
Definition mini_square (Lw Lh total_modules qz row col : Z) (square_frac : float)
  : result (Z * Z * Z * Z) :=
  f <- float_int_truediv one total_modules ;;
  let Ctot := col + qz in
  let Rtot := row + qz in
  let cx := PyFloat.round (PyFloat.mul (PyFloat.mul (PyFloat.add (PyFloat.of_int Ctot) half) f)
                                       (PyFloat.of_int Lw)) in
  let cy := PyFloat.round (PyFloat.mul (PyFloat.mul (PyFloat.add (PyFloat.of_int Rtot) half) f)
                                       (PyFloat.of_int Lh)) in
  cw <- int_truediv Lw total_modules ;;
  ch <- int_truediv Lh total_modules ;;
  let side := Z.max 1 (PyFloat.round (PyFloat.mul (PyFloat.min cw ch) square_frac)) in
  let half_side := side / 2 in
  let x0 := clamp (cx - half_side) 0 (Lw - 1) in
  let y0 := clamp (cy - half_side) 0 (Lh - 1) in
  let x1 := clamp (x0 + side - 1) 0 (Lw - 1) in
  let y1 := clamp (y0 + side - 1) 0 (Lh - 1) in
  Ok (x0, y0, x1, y1).

(** One iteration of the two nested loops: the rectangle drawn for module
    [(row, col)] and its fill. *)
Definition module_draw (qr_img logo : Image) (geo : QRGeometry)
  (square_frac : float) (radius threshold_logo : Z) (threshold_qr : option Z)
  (alpha row col : Z) : result ((Z * Z * Z * Z) * RGBA) :=
  let Lw := width logo in
  let Lh := height logo in
  let n := n_modules geo in
  let qz := qz_modules geo in
  let total_modules := n + 2 * qz in
  want_dark <- sample_qr_module_dark qr_img geo threshold_qr row col ;;
  pix <- pick_logo_color logo Lw Lh total_modules qz row col want_dark threshold_logo radius ;;
  pix <- match pix with
         | None => synthesize_color logo Lw Lh total_modules qz row col want_dark alpha
         | Some p => let '(r, g, b, _) := p in Ok (r, g, b, alpha)
         end ;;
  if in_finder n row col then
    xy <- cell_bounds Lw Lh total_modules qz row col ;;
    Ok (xy, pix)
  else
    xy <- mini_square Lw Lh total_modules qz row col square_frac ;;
    Ok (xy, pix).

(** The modules in the order the loops visit them. *)
Definition module_grid (n : Z) : list (Z * Z) :=
  flat_map (fun row => map (fun col => (row, col)) (range 0 n)) (range 0 n).

(** The loops: each iteration computes one rectangle and draws it. *)
Fixpoint paint_modules (body : Z -> Z -> result ((Z * Z * Z * Z) * RGBA))
  (cells : list (Z * Z)) (overlay : Image) : result Image :=
  match cells with
  | [] => Ok overlay
  | (row, col) :: rest =>
      '(xy, pix) <- body row col ;;
      paint_modules body rest (draw_rectangle overlay xy pix)
  end.

(** [build_overlay], from the decoded bitmaps to the overlay that is saved.
    [gray] is [to_gray(qr_img)]. *)
Definition build_overlay (qr_img : Image) (gray : GrayArray) (logo : Image)
  (modules_override quiet_override : option Z) (square_frac : float)
  (radius threshold_logo : Z) (threshold_qr : option Z)
  (skip_finders : bool) (alpha : Z) : result Image :=
  let Lw := width logo in
  let Lh := height logo in
  geo <- match modules_override, quiet_override with
         | Some n, Some qz => geo_from_exact_dims (width qr_img) (height qr_img) n qz
         | _, _ => detect_qr_geometry (width qr_img) (height qr_img) gray threshold_qr
         end ;;
  let n := n_modules geo in
  let qz := qz_modules geo in
  let total_modules := n + 2 * qz in
  let overlay := new_overlay Lw Lh in
  cell_w <- int_truediv Lw total_modules ;;
  cell_h <- int_truediv Lh total_modules ;;
  let side := Z.max 1 (PyFloat.round (PyFloat.mul (PyFloat.min cell_w cell_h) square_frac)) in
  paint_modules
    (module_draw qr_img logo geo square_frac radius threshold_logo threshold_qr alpha)
    (module_grid n) overlay.

(** ** Notions used to state the properties *)

(** *** Colour synthesis *)

(** [r] is a nearest integer to the fraction [num / den] (for [den > 0]). *)
Definition nearest_to (num den r : Z) : Prop := 2 * Z.abs (den * r - num) <= den.

(** One channel pushed toward black, and toward white. *)
Definition push_dark (c : Z) : Z :=
  let '(r, _, _) := adjust_color_toward (c, c, c) true blend_strength in r.
Definition push_light (c : Z) : Z :=
  let '(r, _, _) := adjust_color_toward (c, c, c) false blend_strength in r.

Definition channel_moves_40 (c : Z) : bool :=
  ((2 * Z.abs (5 * push_dark c - 3 * c) <=? 5)
   && ((0 <=? push_dark c) && (push_dark c <=? 255)))
  && ((2 * Z.abs (5 * push_light c - (5 * c + 2 * (255 - c))) <=? 5)
      && ((0 <=? push_light c) && (push_light c <=? 255))).

(** *** Module counts *)

Definition box_width (g : QRGeometry) : Z :=
  let '(x_left, _, x_right, _) := content_box g in x_right - x_left + 1.
Definition box_height (g : QRGeometry) : Z :=
  let '(_, y_top, _, y_bottom) := content_box g in y_bottom - y_top + 1.

(** The counts derived from the width and from the height of the box. *)
Definition width_count (g : QRGeometry) : result Z := count_along (box_width g) (module_px g).
Definition height_count (g : QRGeometry) : result Z := count_along (box_height g) (module_px g).

(** The reading under which the width count wins every mismatch. *)
Definition width_count_authoritative (W H : Z) (gray : GrayArray) (thr : option Z) : Prop :=
  forall g n_w n_h,
    detect_qr_geometry W H gray thr = Ok g ->
    width_count g = Ok n_w -> height_count g = Ok n_h ->
    n_w <> n_h -> n_modules g = n_w.

(** The mean of two integers rounded to an integer, halves going to the even
    neighbour. *)
Definition half_even_mean (a b : Z) : Z :=
  let s := a + b in
  let q := s / 2 in
  if Z.even s then q else if Z.even q then q else q + 1.

Definition merge_is_half_even (s : Z) : bool :=
  match int_truediv s 2 with
  | Ok q => PyFloat.round q =? half_even_mean s 0
  | Err _ => false
  end.

(** A 8x4 array: every row is dark except for its second pixel. *)
Definition gray_8x4 : GrayArray :=
  [[0; 255; 0; 0; 0; 0; 0; 0];
   [0; 255; 0; 0; 0; 0; 0; 0];
   [0; 255; 0; 0; 0; 0; 0; 0];
   [0; 255; 0; 0; 0; 0; 0; 0]].

(** The threshold the detector works with, and the two mask counts. *)
Definition chosen_threshold (gray : GrayArray) (thr : option Z) : Z :=
  match thr with Some t => t | None => otsu_threshold gray end.
Definition count_lt (gray : GrayArray) (thr : option Z) : Z :=
  mask_count (mask_lt gray (chosen_threshold gray thr)).
Definition count_gt (gray : GrayArray) (thr : option Z) : Z :=
  mask_count (mask_gt gray (chosen_threshold gray thr)).

(** The polarity the detector settles on: [true] for the [gray < t] mask. *)
Definition chosen_polarity (gray : GrayArray) (thr : option Z) : bool :=
  (count_lt gray thr >=? count_gt gray thr) && (count_lt gray thr >? 0).

(** *** Override mode *)


(** *** The content box against the module grid *)




(** A 6x6 array, all dark but the last two pixels of the middle row. *)
Definition gray_6x6 : GrayArray :=
  [[0; 0; 0; 0; 0; 0];
   [0; 0; 0; 0; 0; 0];
   [0; 0; 0; 0; 255; 255];
   [0; 0; 0; 0; 0; 0];
   [0; 0; 0; 0; 0; 0];
   [0; 0; 0; 0; 0; 0]].

(** The side of QR symbol version [v]: 21, 25, 29, ... *)
Definition qr_size (v : Z) : Z := 17 + 4 * v.


(** *** Otsu's criterion *)

(** Pixels of value at most [t], and the sum of their values. *)
Definition w_below (hist : list Z) (t : Z) : Z :=
  sumZ (firstn (Z.to_nat (t + 1)) hist).
Definition s_below (hist : list Z) (t : Z) : Z :=
  dot_arange 0 (firstn (Z.to_nat (t + 1)) hist).

(** The between-class variance, as the code computes it, of the classes
    [{<= t}] and [{> t}]. *)
Definition var_at (hist : list Z) (t : Z) : float :=
  var_between (w_below hist t) (sumZ hist - w_below hist t)
              (s_below hist t) (dot_arange 0 hist).

(** [t] splits the pixels into two non-empty classes. *)
Definition candidate (hist : list Z) (t : Z) : Prop :=
  0 <= t < lenZ hist /\ w_below hist t <> 0 /\ sumZ hist - w_below hist t <> 0.

(** The loop never assigned: the initial values are returned. *)
Definition never_assigned (st : otsu_state) : Prop :=
  thresh st = 128 /\ max_var st = PyFloat.of_int (-1).

(** [thresh st] is the earliest candidate of maximal variance. *)
Definition earliest_maximum (hist : list Z) (st : otsu_state) : Prop :=
  candidate hist (thresh st)
  /\ max_var st = var_at hist (thresh st)
  /\ forall t, candidate hist t -> t < thresh st ->
               PyFloat.leb (var_at hist (thresh st)) (var_at hist t) = false.

(** What holds after the bins of [pre] have been visited, and at the end. *)
Definition otsu_inv (hist pre : list Z) (st : otsu_state) : Prop :=
  (forall t, candidate hist t -> t < lenZ pre ->
             PyFloat.ltb (max_var st) (var_at hist t) = false)
  /\ (never_assigned st \/ (earliest_maximum hist st /\ thresh st < lenZ pre)).
Definition otsu_post (hist : list Z) (st : otsu_state) : Prop :=
  (forall t, candidate hist t -> PyFloat.ltb (max_var st) (var_at hist t) = false)
  /\ (never_assigned st \/ earliest_maximum hist st).



(** The histogram of an image with one black and one white pixel. *)
Definition hist_black_white : list Z :=
  1 :: repeat 0 254 ++ [1].

(** *** Compositing *)


(** Where the fill of module [(row, col)] comes from: the sampled darkness
    [want_dark], the picker's answer for it, and then either the picked
    pixel's colour or the synthesised one, with the caller's alpha. *)
Definition fill_source (qr_img logo : Image) (geo : QRGeometry)
  (radius threshold_logo : Z) (threshold_qr : option Z) (alpha row col : Z)
  (fill : RGBA) : Prop :=
  let total_modules := n_modules geo + 2 * qz_modules geo in
  exists want_dark picked,
    sample_qr_module_dark qr_img geo threshold_qr row col = Ok want_dark
    /\ pick_logo_color logo (width logo) (height logo) total_modules (qz_modules geo)
         row col want_dark threshold_logo radius = Ok picked
    /\ match picked with
       | Some p => fill = (let '(r, g, b, _) := p in (r, g, b, alpha))
       | None => synthesize_color logo (width logo) (height logo) total_modules
                   (qz_modules geo) row col want_dark alpha = Ok fill
       end.


(** A 6x6 black bitmap and a 4x4 logo of solid blue. *)
Definition black_6x6 : Image :=
  {| width := 6; height := 6; getpixel := fun _ _ => (0, 0, 0, 255) |}.
Definition blue_4x4 : Image :=
  {| width := 4; height := 4; getpixel := fun _ _ => (0, 0, 255, 255) |}.
Definition quarter : float := PyFloat.lit 25 100.
Definition geo_2 : QRGeometry :=
  {| n_modules := 2; qz_modules := 0; content_box := (0, 0, 5, 5);
     module_px := PyFloat.of_int 3; geo_thresh := 128; dark_is_lt := true |}.

(** *** Colour picking *)

(** The logo pixel sampled for the cell [(r, c)] of the total grid. *)
Definition grid_pixel (logo : Image) (logo_w logo_h total r c : Z) : result RGBA :=
  '(x, y) <- center_xy total logo_w logo_h r c ;;
  Ok (getpixel logo x y).

Definition in_grid (total nr nc : Z) : bool :=
  ((0 <=? nr) && (nr <? total)) && ((0 <=? nc) && (nc <? total)).

(** The neighbour at offset [(dr, dc)] of the cell [(R, C)] is in bounds and
    its pixel [npix] passes the neighbour test. *)
Definition match_at (logo : Image) (logo_w logo_h total R C : Z)
  (want_dark : bool) (thr : Z) (dr dc : Z) (npix : RGBA) : Prop :=
  in_grid total (R + dr) (C + dc) = true
  /\ grid_pixel logo logo_w logo_h total (R + dr) (C + dc) = Ok npix
  /\ neighbor_ok thr want_dark npix = true.

(** Generation order of the offsets: row-major, [dc] within [dr]. *)
Definition generated_before (o o' : Z * Z * Z) : Prop :=
  let '(dr, dc, _) := o in
  let '(dr', dc', _) := o' in
  dr < dr' \/ (dr = dr' /\ dc < dc').

(** Visiting order after the sort: by squared distance, equal distances in
    generation order. *)
Definition visited_before (o o' : Z * Z * Z) : Prop :=
  d2_of o < d2_of o' \/ (d2_of o = d2_of o' /\ generated_before o o').

(** [(dr, dc)] is visited no later than [(dr', dc')]. *)
Definition no_later (dr dc dr' dc' : Z) : Prop :=
  dr * dr + dc * dc < dr' * dr' + dc' * dc'
  \/ (dr * dr + dc * dc = dr' * dr' + dc' * dc'
      /\ (dr < dr' \/ (dr = dr' /\ dc <= dc'))).

(** A 4x4 logo, opaque white but for one black pixel at x = 3, y = 2; and a
    4x4 logo, transparent but for one opaque white pixel there. *)
Definition one_black_4x4 : Image :=
  {| width := 4; height := 4;
     getpixel := fun x y => if (x =? 3) && (y =? 2) then (0, 0, 0, 255)
                            else (255, 255, 255, 255) |}.
Definition one_white_4x4 : Image :=
  {| width := 4; height := 4;
     getpixel := fun x y => if (x =? 3) && (y =? 2) then (255, 255, 255, 255)
                            else (0, 0, 0, 0) |}.

(** ** Further notions *)

(** The two pushes are monotone, never go the wrong way, and black (resp.
    white) is a fixed point, at the channel values [c] and [c + 1]. *)
Definition push_is_monotone (c : Z) : bool :=
  ((push_dark c <=? c) && (c <=? push_light c))
  && ((push_dark c <=? push_dark (c + 1)) && (push_light c <=? push_light (c + 1))).

(** The luminance the sampler computes for a pixel:
    [int(round(0.299*r + 0.587*g + 0.114*b))]. *)
Definition gray601 (r g b : Z) : Z :=
  PyFloat.round
    (PyFloat.add
       (PyFloat.add (PyFloat.mul (PyFloat.lit 299 1000) (PyFloat.of_int r))
                    (PyFloat.mul (PyFloat.lit 587 1000) (PyFloat.of_int g)))
       (PyFloat.mul (PyFloat.lit 114 1000) (PyFloat.of_int b))).

Definition gray601_exact (v : Z) : bool := gray601 v v v =? v.

(** The logo's luminance of the grey level [v] against every threshold from
    0 to 256: below a larger threshold, not below a smaller one. *)
Definition gray_luminance_ordered (v : Z) : bool :=
  let l := luminance_rgb (v, v, v) in
  forallb (fun thr =>
             let below := PyFloat.ltb l (PyFloat.of_int thr) in
             (if v <? thr then below else true)
             && (if thr <? v then negb below else true))
          (range 0 257).

(** The number of set entries of a row of a mask. *)
Definition count_true (row : list bool) : Z := lenZ (filter (fun b => b) row).

(** The mask the detector works with, and "pixel value [v] is dark" for a
    geometry. *)
Definition chosen_mask (gray : GrayArray) (thr : option Z) : list (list bool) :=
  if chosen_polarity gray thr then mask_lt gray (chosen_threshold gray thr)
  else mask_gt gray (chosen_threshold gray thr).
Definition is_dark_value (g : QRGeometry) (v : Z) : bool :=
  if dark_is_lt g then v <? geo_thresh g else v >? geo_thresh g.

(** A 3x3 array with one dark pixel in the middle. *)
Definition gray_3x3 : GrayArray :=
  [[255; 255; 255]; [255; 0; 255]; [255; 255; 255]].

(** The pixel of a grayscale array at column [x] and row [y]. *)
Definition gray_at (gray : GrayArray) (x y : Z) : option Z :=
  match nth_error gray (Z.to_nat y) with
  | Some row => nth_error row (Z.to_nat x)
  | None => None
  end.

(** The dark pixels (for the geometry [g]) of an array: their coordinates. *)
Definition dark_pixel (gray : GrayArray) (g : QRGeometry) (x y : Z) : Prop :=
  0 <= x /\ 0 <= y
  /\ exists v, gray_at gray x y = Some v /\ is_dark_value g v = true.

(** The geometry detected on [gray_3x3] with the threshold 128. *)
Definition geo_3x3 : QRGeometry :=
  {| n_modules := 3; qz_modules := 0; content_box := (0, 0, 2, 2);
     module_px := one; geo_thresh := 128; dark_is_lt := false |}.

(** An array of bytes. *)
Definition byte_array (gray : GrayArray) : Prop :=
  Forall (fun v => 0 <= v < 256) (concat gray).
Definition byte_arrayb (gray : GrayArray) : bool :=
  forallb (fun v => (0 <=? v) && (v <? 256)) (concat gray).

(** The threshold [t] splits the pixels: one is at most [t], one is above. *)
Definition splits (gray : GrayArray) (t : Z) : Prop :=
  (exists v, In v (concat gray) /\ v <= t) /\ (exists v, In v (concat gray) /\ t < v).

(** A logo all of whose pixels are (nearly) transparent. *)
Definition transparent_logo (logo : Image) : Prop :=
  forall x y, alpha_of (getpixel logo x y) < 10.

(** A pixel's colour with the alpha replaced, [(pix[0], pix[1], pix[2], alpha)]. *)
Definition with_alpha (p : RGBA) (alpha : Z) : RGBA :=
  let '(r, g, b, _) := p in (r, g, b, alpha).

(** A 4x4 logo that is fully transparent. *)
Definition clear_4x4 : Image :=
  {| width := 4; height := 4; getpixel := fun _ _ => (9, 9, 9, 0) |}.

(** Structural equality of two floats. *)
Definition float_same (a b : float) : bool :=
  match a, b with
  | S754_zero s1, S754_zero s2 => Bool.eqb s1 s2
  | S754_infinity s1, S754_infinity s2 => Bool.eqb s1 s2
  | S754_nan, S754_nan => true
  | S754_finite s1 m1 e1, S754_finite s2 m2 e2 =>
      Bool.eqb s1 s2 && (Pos.eqb m1 m2 && Z.eqb e1 e2)
  | _, _ => false
  end.

(** The override geometry of a symbol drawn at [k] pixels per module is
    exact: the content box starts [qz * k] pixels in and is [n * k] wide. *)
Definition aligned_exact (k n qz : Z) : bool :=
  match geo_from_exact_dims (k * (n + 2 * qz)) (k * (n + 2 * qz)) n qz with
  | Ok g =>
      let '(x_left, y_top, x_right, y_bottom) := content_box g in
      ((x_left =? qz * k) && (y_top =? qz * k))
      && ((x_right =? (qz + n) * k - 1) && (y_bottom =? (qz + n) * k - 1))
      && float_same (module_px g) (PyFloat.of_int k)
  | Err _ => false
  end.

(** [min(left, top, W - 1 - right, H - 1 - bottom)] for a geometry's box. *)
Definition quiet_px (W H : Z) (g : QRGeometry) : Z :=
  let '(x_left, y_top, x_right, y_bottom) := content_box g in
  Z.min (Z.min (Z.min x_left y_top) (W - 1 - x_right)) (H - 1 - y_bottom).

(** A logo all of whose pixels are [p]. *)
Definition uniform_logo (logo : Image) (p : RGBA) : Prop :=
  forall x y, getpixel logo x y = p.

(** The synthesised fill for a base pixel. *)
Definition pushed (p : RGBA) (want_dark : bool) (alpha : Z) : RGBA :=
  let '(r, g, b) := adjust_color_toward (rgb_of p) want_dark blend_strength in
  (r, g, b, alpha).

(** The geometry detected on [gray_6x6] with the threshold 128. *)
Definition geo_6x6 : QRGeometry :=
  Eval vm_compute in
    match detect_qr_geometry 6 6 gray_6x6 (Some 128) with
    | Ok g => g
    | Err _ => geo_3x3
    end.

(** * Properties *)

(** ** Ranges and bounded checks *)

Lemma in_range_from (n : nat) (lo z : Z) :
  In z (range_from lo n) <-> lo <= z < lo + Z.of_nat n.
Proof.
  revert lo. induction n as [|n IH]; intros lo; cbn [range_from In].
  - lia.
  - rewrite IH. lia.
Qed.

Lemma in_range (lo hi z : Z) : In z (range lo hi) <-> lo <= z < hi.
Proof. unfold range. rewrite in_range_from. lia. Qed.

Lemma range_forallb (P : Z -> bool) (lo hi : Z) :
  forallb P (range lo hi) = true -> forall z, lo <= z < hi -> P z = true.
Proof.
  intros H z Hz. rewrite forallb_forall in H. apply H, in_range, Hz.
Qed.

Lemma length_range_from (n : nat) (lo : Z) : length (range_from lo n) = n.
Proof. revert lo. induction n; intros; cbn; [reflexivity | now rewrite IHn]. Qed.

Lemma length_range (lo hi : Z) : length (range lo hi) = Z.to_nat (hi - lo).
Proof. unfold range. apply length_range_from. Qed.

(** ** Colour synthesis *)

Lemma adjust_color_toward_channels (r g b : Z) :
  adjust_color_toward (r, g, b) true blend_strength = (push_dark r, push_dark g, push_dark b)
  /\ adjust_color_toward (r, g, b) false blend_strength = (push_light r, push_light g, push_light b).
Proof. split; reflexivity. Qed.

Lemma all_channels_move_40 : forallb channel_moves_40 (range 0 256) = true.
Proof. vm_compute. reflexivity. Qed.

(** C2, as stated, at mid-gray pushed toward light: the code yields
    (179,179,179), that is 128 + 127 x 0.40 = 178.8 rounded, and not
    (204,204,204). *)
Lemma mid_gray_toward_light_is_not_204 :
  adjust_color_toward (128, 128, 128) false blend_strength <> (204, 204, 204).
Proof. vm_compute. discriminate. Qed.

(** C2, amended: with strength 0.40 mid-gray goes to (77,77,77) toward dark
    and to (179,179,179) toward light; and every channel value [c] of a byte
    goes to a nearest integer to [c - 0.4 c] (dark) or to [c + 0.4 (255 - c)]
    (light), which lies in [0,255]. *)
Theorem adjust_color_toward_blend_040 (r g b : Z) :
  0 <= r <= 255 -> 0 <= g <= 255 -> 0 <= b <= 255 ->
  adjust_color_toward (128, 128, 128) true blend_strength = (77, 77, 77)
  /\ adjust_color_toward (128, 128, 128) false blend_strength = (179, 179, 179)
  /\ (forall dr dg db,
        adjust_color_toward (r, g, b) true blend_strength = (dr, dg, db) ->
        (nearest_to (3 * r) 5 dr /\ 0 <= dr <= 255)
        /\ (nearest_to (3 * g) 5 dg /\ 0 <= dg <= 255)
        /\ (nearest_to (3 * b) 5 db /\ 0 <= db <= 255))
  /\ (forall lr lg lb,
        adjust_color_toward (r, g, b) false blend_strength = (lr, lg, lb) ->
        (nearest_to (5 * r + 2 * (255 - r)) 5 lr /\ 0 <= lr <= 255)
        /\ (nearest_to (5 * g + 2 * (255 - g)) 5 lg /\ 0 <= lg <= 255)
        /\ (nearest_to (5 * b + 2 * (255 - b)) 5 lb /\ 0 <= lb <= 255)).
Proof.
  intros Hr Hg Hb.
  assert (Hc : forall c, 0 <= c <= 255 ->
            (nearest_to (3 * c) 5 (push_dark c) /\ 0 <= push_dark c <= 255)
            /\ (nearest_to (5 * c + 2 * (255 - c)) 5 (push_light c)
                /\ 0 <= push_light c <= 255)).
  { intros c Hc.
    assert (H := range_forallb _ _ _ all_channels_move_40 c ltac:(lia)).
    unfold channel_moves_40 in H. unfold nearest_to.
    repeat (apply andb_prop in H; destruct H as [? H]).
    repeat match goal with
           | H : andb _ _ = true |- _ => apply andb_prop in H; destruct H
           end.
    lia. }
  split; [vm_compute; reflexivity|].
  split; [vm_compute; reflexivity|].
  split.
  - intros dr dg db E.
    rewrite (proj1 (adjust_color_toward_channels r g b)) in E.
    injection E as <- <- <-.
    exact (conj (proj1 (Hc r Hr)) (conj (proj1 (Hc g Hg)) (proj1 (Hc b Hb)))).
  - intros lr lg lb E.
    rewrite (proj2 (adjust_color_toward_channels r g b)) in E.
    injection E as <- <- <-.
    exact (conj (proj2 (Hc r Hr)) (conj (proj2 (Hc g Hg)) (proj2 (Hc b Hb)))).
Qed.

Lemma adjust_color_toward_blend_040_witness :
  adjust_color_toward (128, 128, 128) true blend_strength = (77, 77, 77)
  /\ adjust_color_toward (128, 128, 128) false blend_strength = (179, 179, 179)
  /\ (forall dr dg db,
        adjust_color_toward (10, 200, 255) true blend_strength = (dr, dg, db) ->
        (nearest_to (3 * 10) 5 dr /\ 0 <= dr <= 255)
        /\ (nearest_to (3 * 200) 5 dg /\ 0 <= dg <= 255)
        /\ (nearest_to (3 * 255) 5 db /\ 0 <= db <= 255))
  /\ (forall lr lg lb,
        adjust_color_toward (10, 200, 255) false blend_strength = (lr, lg, lb) ->
        (nearest_to (5 * 10 + 2 * (255 - 10)) 5 lr /\ 0 <= lr <= 255)
        /\ (nearest_to (5 * 200 + 2 * (255 - 200)) 5 lg /\ 0 <= lg <= 255)
        /\ (nearest_to (5 * 255 + 2 * (255 - 255)) 5 lb /\ 0 <= lb <= 255)).
Proof. apply (adjust_color_toward_blend_040 10 200 255); lia. Defined.

(** ** Geometry detection: what a returned geometry satisfies *)

Ltac invert_result H :=
  repeat match type of H with
         | (if ?c then _ else _) = _ =>
             let E := fresh "E" in destruct c eqn:E; try discriminate H
         | bind ?c _ = _ =>
             let E := fresh "E" in destruct c eqn:E; unfold bind at 1 in H;
             try discriminate H
         | (let '(_, _) := ?p in _) = _ => destruct p
         end.

Lemma detect_qr_geometry_ok (W H : Z) (gray : GrayArray) (thr : option Z) (g : QRGeometry) :
  detect_qr_geometry W H gray thr = Ok g ->
  (exists n_w n_h,
      width_count g = Ok n_w /\ height_count g = Ok n_h
      /\ merge_counts n_w n_h = Ok (n_modules g))
  /\ 0 < n_modules g
  /\ 0 <= qz_modules g
  /\ geo_thresh g = chosen_threshold gray thr
  /\ dark_is_lt g = ((count_lt gray thr >=? count_gt gray thr) && (count_lt gray thr >? 0))
  /\ ~ (count_lt gray thr = 0 /\ count_gt gray thr = 0).
Proof.
  unfold detect_qr_geometry, count_lt, count_gt.
  fold (chosen_threshold gray thr).
  set (t := chosen_threshold gray thr).
  set (c_lt := mask_count (mask_lt gray t)).
  set (c_gt := mask_count (mask_gt gray t)).
  cbv zeta.
  set (use_lt := (c_lt >=? c_gt) && (c_lt >? 0)).
  intros Hd.
  invert_result Hd.
  injection Hd as <-.
  unfold width_count, height_count, box_width, box_height.
  cbn [content_box module_px n_modules qz_modules geo_thresh dark_is_lt].
  repeat split.
  - eexists _, _. repeat split; eassumption.
  - lia.
  - lia.
  - intros [? ?]. apply andb_false_iff in E. lia.
Qed.

(** ** Module count *)

Lemma merge_counts_equal (n : Z) : merge_counts n n = Ok n.
Proof. unfold merge_counts. now rewrite Z.eqb_refl. Qed.

Lemma half_even_all : forallb merge_is_half_even (range (-1024) 1025) = true.
Proof. vm_compute. reflexivity. Qed.

Lemma merge_counts_differ (n_w n_h : Z) :
  n_w <> n_h -> -1024 <= n_w + n_h <= 1024 ->
  merge_counts n_w n_h = Ok (half_even_mean n_w n_h).
Proof.
  intros Hne Hs. unfold merge_counts.
  destruct (n_w =? n_h) eqn:E; [apply Z.eqb_eq in E; contradiction|].
  cbn [negb].
  assert (Hc := range_forallb _ _ _ half_even_all (n_w + n_h) ltac:(lia)).
  unfold merge_is_half_even in Hc.
  destruct (int_truediv (n_w + n_h) 2) as [q|e]; [|discriminate Hc].
  unfold bind. apply Z.eqb_eq in Hc. rewrite Hc.
  unfold half_even_mean. now rewrite Z.add_0_r.
Qed.

(** C1, as stated, on an 8x4 array with threshold 128: the width gives 8
    modules, the height gives 4, and the detector settles on 6. *)
Lemma width_count_not_authoritative :
  ~ width_count_authoritative 8 4 gray_8x4 (Some 128).
Proof.
  intros Hc.
  assert (Hd : exists g, detect_qr_geometry 8 4 gray_8x4 (Some 128) = Ok g
                         /\ width_count g = Ok 8 /\ height_count g = Ok 4
                         /\ n_modules g = 6).
  { eexists. split; [vm_compute; reflexivity|]. vm_compute. repeat split. }
  destruct Hd as [g [Hg [Hw [Hh Hn]]]].
  specialize (Hc g 8 4 Hg Hw Hh ltac:(lia)). lia.
Qed.

(** C1, amended: a returned geometry has width and height counts [n_w] and
    [n_h] (box extent over [module_px], rounded); when they are equal
    [n_modules] is that count, and when they differ [n_modules] is their mean
    rounded to an integer, halves to the even neighbour (checked for counts
    whose sum is at most 1024 in absolute value), not the width count. *)
Theorem n_modules_merges_counts (W H : Z) (gray : GrayArray) (thr : option Z)
  (g : QRGeometry) :
  detect_qr_geometry W H gray thr = Ok g ->
  exists n_w n_h,
    width_count g = Ok n_w /\ height_count g = Ok n_h
    /\ (n_w = n_h -> n_modules g = n_w)
    /\ (n_w <> n_h -> -1024 <= n_w + n_h <= 1024 ->
        n_modules g = half_even_mean n_w n_h).
Proof.
  intros Hd.
  destruct (detect_qr_geometry_ok _ _ _ _ _ Hd) as [[n_w [n_h [Hw [Hh Hm]]]] _].
  exists n_w, n_h. repeat split; try assumption.
  - intros ->. rewrite merge_counts_equal in Hm. now injection Hm.
  - intros Hne Hs. rewrite (merge_counts_differ _ _ Hne Hs) in Hm. now injection Hm.
Qed.

Lemma n_modules_merges_counts_witness :
  exists n_w n_h,
    width_count (mk_geo 6 0 (0, 0, 7, 3) one 128 true) = Ok n_w
    /\ height_count (mk_geo 6 0 (0, 0, 7, 3) one 128 true) = Ok n_h
    /\ (n_w = n_h -> n_modules (mk_geo 6 0 (0, 0, 7, 3) one 128 true) = n_w)
    /\ (n_w <> n_h -> -1024 <= n_w + n_h <= 1024 ->
        n_modules (mk_geo 6 0 (0, 0, 7, 3) one 128 true) = half_even_mean n_w n_h).
Proof.
  apply (n_modules_merges_counts 8 4 gray_8x4 (Some 128)).
  vm_compute. reflexivity.
Defined.

(** ** Polarity *)

Lemma float_truediv_err (x y : float) (e : error) :
  float_truediv x y = Err e -> e = ZeroDivisionError.
Proof.
  unfold float_truediv. destruct (PyFloat.is_zero y); [|discriminate].
  intros H. now injection H.
Qed.

Lemma int_truediv_err (a b : Z) (e : error) :
  int_truediv a b = Err e -> e = ZeroDivisionError.
Proof.
  unfold int_truediv. destruct (b =? 0); [|discriminate].
  intros H. now injection H.
Qed.

Lemma count_along_err (x : Z) (m : float) (e : error) :
  count_along x m = Err e -> e = ZeroDivisionError.
Proof.
  unfold count_along. destruct (float_truediv _ m) eqn:E; [discriminate|].
  unfold bind. intros H. injection H as <-. eapply float_truediv_err, E.
Qed.

Lemma merge_counts_err (a b : Z) (e : error) :
  merge_counts a b = Err e -> e = ZeroDivisionError.
Proof.
  unfold merge_counts. destruct (negb (a =? b)); [|discriminate].
  destruct (int_truediv _ 2) eqn:E; [discriminate|].
  unfold bind. intros H. injection H as <-. eapply int_truediv_err, E.
Qed.

Lemma mask_count_nonneg (m : list (list bool)) : 0 <= mask_count m.
Proof. unfold mask_count, lenZ. lia. Qed.

Lemma detect_qr_geometry_flat (W H : Z) (gray : GrayArray) (thr : option Z) :
  detect_qr_geometry W H gray thr = Err NoModulesDetected
  <-> count_lt gray thr = 0 /\ count_gt gray thr = 0.
Proof.
  unfold detect_qr_geometry, count_lt, count_gt.
  fold (chosen_threshold gray thr).
  set (t := chosen_threshold gray thr).
  set (c_lt := mask_count (mask_lt gray t)).
  set (c_gt := mask_count (mask_gt gray t)).
  cbv zeta.
  set (use_lt := (c_lt >=? c_gt) && (c_lt >? 0)).
  split.
  - intros Hd.
    destruct ((c_lt =? 0) && (c_gt =? 0)) eqn:E0.
    + apply andb_prop in E0. lia.
    + exfalso.
      invert_result Hd;
        try (injection Hd as ->);
        repeat match goal with
               | H : count_along _ _ = Err _ |- _ => apply count_along_err in H
               | H : merge_counts _ _ = Err _ |- _ => apply merge_counts_err in H
               | H : float_truediv _ _ = Err _ |- _ => apply float_truediv_err in H
               end;
        try discriminate.
      all: invert_result E; discriminate.
  - intros [-> ->]. reflexivity.
Qed.


(** ** Override mode *)

Example geo_from_exact_dims_290 :
  geo_from_exact_dims 290 290 21 4
  = Ok {| n_modules := 21; qz_modules := 4; content_box := (40, 40, 249, 249);
          module_px := PyFloat.of_int 10; geo_thresh := 128; dark_is_lt := true |}.
Proof. vm_compute. reflexivity. Qed.



(** ** The content box against the module grid *)





(** ** Order on floats *)

Lemma SFcompare_finite_pos (m1 m2 : positive) (e1 e2 : Z) :
  SFcompare (S754_finite false m1 e1) (S754_finite false m2 e2)
  = Some match Z.compare e1 e2 with
         | Lt => Lt
         | Gt => Gt
         | Eq => Pos.compare m1 m2
         end.
Proof. reflexivity. Qed.

Lemma SFcompare_finite_neg (m1 m2 : positive) (e1 e2 : Z) :
  SFcompare (S754_finite true m1 e1) (S754_finite true m2 e2)
  = Some match Z.compare e1 e2 with
         | Lt => Gt
         | Gt => Lt
         | Eq => CompOpp (Pos.compare m1 m2)
         end.
Proof. reflexivity. Qed.

Ltac order_cases :=
  repeat match goal with
         | H : context [Z.compare ?a ?b] |- _ =>
             destruct (Z.compare_spec a b); try discriminate H
         | |- context [Z.compare ?a ?b] =>
             destruct (Z.compare_spec a b)
         | H : context [Pos.compare ?a ?b] |- _ =>
             destruct (Pos.compare_spec a b); cbn [CompOpp] in H; try discriminate H
         | |- context [Pos.compare ?a ?b] =>
             destruct (Pos.compare_spec a b); cbn [CompOpp]
         end;
  subst; try reflexivity; try lia.

Lemma SFcompare_lt_le (a b c : spec_float) :
  SFcompare a b = Some Lt ->
  SFcompare b c = Some Lt \/ SFcompare b c = Some Eq ->
  SFcompare a c = Some Lt.
Proof.
  intros Hab Hbc.
  destruct a as [sa|sa| |sa ma ea]; destruct b as [sb|sb| |sb mb eb];
    destruct c as [sc|sc| |sc mc ec];
    try destruct sa; try destruct sb; try destruct sc;
    try discriminate Hab;
    try (destruct Hbc as [Hbc|Hbc]; discriminate Hbc);
    try reflexivity;
    rewrite ?SFcompare_finite_pos, ?SFcompare_finite_neg in *.
  all: destruct Hbc as [Hbc|Hbc]; injection Hbc as Hbc; injection Hab as Hab;
    f_equal; order_cases.
Qed.

Lemma SFltb_irrefl (x : spec_float) : SFltb x x = false.
Proof.
  unfold SFltb. destruct x as [s|s| |s m e]; try destruct s; try reflexivity.
  - rewrite SFcompare_finite_neg, Z.compare_refl, Pos.compare_refl. reflexivity.
  - rewrite SFcompare_finite_pos, Z.compare_refl, Pos.compare_refl. reflexivity.
Qed.

Lemma SFltb_true (a b : spec_float) : SFltb a b = true <-> SFcompare a b = Some Lt.
Proof.
  unfold SFltb. destruct (SFcompare a b) as [[| |]|]; split; congruence.
Qed.

Lemma SFleb_true (a b : spec_float) :
  SFleb a b = true <-> SFcompare a b = Some Lt \/ SFcompare a b = Some Eq.
Proof.
  unfold SFleb. destruct (SFcompare a b) as [[| |]|]; split;
    try tauto; try congruence; intros [H|H]; congruence.
Qed.

Lemma ltb_trans (a b c : float) :
  PyFloat.ltb a b = true -> PyFloat.ltb b c = true -> PyFloat.ltb a c = true.
Proof.
  unfold PyFloat.ltb. rewrite !SFltb_true. intros Hab Hbc.
  apply (SFcompare_lt_le a b c Hab). now left.
Qed.

Lemma ltb_leb_trans (a b c : float) :
  PyFloat.ltb a b = true -> PyFloat.leb b c = true -> PyFloat.ltb a c = true.
Proof.
  unfold PyFloat.ltb, PyFloat.leb. rewrite !SFltb_true, SFleb_true.
  apply SFcompare_lt_le.
Qed.

(** ** Otsu's threshold *)

Lemma sumZ_app (l1 l2 : list Z) : sumZ (l1 ++ l2) = sumZ l1 + sumZ l2.
Proof. induction l1 as [|x l1 IH]; cbn [sumZ app fold_right] in *; [reflexivity|]. unfold sumZ in *. lia. Qed.

Lemma sumZ_nonneg (l : list Z) : Forall (fun x => 0 <= x) l -> 0 <= sumZ l.
Proof. induction 1; cbn; unfold sumZ in *; cbn; lia. Qed.

Lemma dot_arange_app (l1 l2 : list Z) (t : Z) :
  dot_arange t (l1 ++ l2) = dot_arange t l1 + dot_arange (t + lenZ l1) l2.
Proof.
  revert t. induction l1 as [|x l1 IH]; intros t; cbn [dot_arange app].
  - unfold lenZ. cbn. now rewrite Z.add_0_r.
  - rewrite IH. unfold lenZ. cbn [length].
    replace (t + 1 + Z.of_nat (length l1)) with (t + Z.of_nat (S (length l1))) by lia.
    lia.
Qed.

Lemma firstn_prefix {A : Type} (pre rest : list A) (k : nat) :
  (k <= length pre)%nat -> firstn k (pre ++ rest) = firstn k pre.
Proof.
  intros Hk. rewrite firstn_app.
  replace (k - length pre)%nat with O by lia. cbn. apply app_nil_r.
Qed.

Lemma firstn_snoc {A : Type} (pre rest : list A) (h : A) :
  firstn (S (length pre)) (pre ++ h :: rest) = pre ++ [h].
Proof.
  rewrite firstn_app. rewrite firstn_all2 by lia.
  replace (S (length pre) - length pre)%nat with 1%nat by lia. reflexivity.
Qed.

Lemma Forall_firstn_skipn {A : Type} (P : A -> Prop) (l : list A) (k : nat) :
  Forall P l -> Forall P (firstn k l) /\ Forall P (skipn k l).
Proof. intros Hl. apply Forall_app. now rewrite firstn_skipn. Qed.

Lemma sumZ_firstn_le (l : list Z) (k : nat) :
  Forall (fun x => 0 <= x) l -> 0 <= sumZ (firstn k l) <= sumZ l.
Proof.
  intros Hl. destruct (Forall_firstn_skipn _ l k Hl) as [H1 H2].
  apply sumZ_nonneg in H1. apply sumZ_nonneg in H2.
  rewrite <- (firstn_skipn k l) at 3. rewrite sumZ_app. lia.
Qed.

Lemma sumZ_firstn_mono (l : list Z) (j k : nat) :
  Forall (fun x => 0 <= x) l -> (j <= k)%nat -> sumZ (firstn j l) <= sumZ (firstn k l).
Proof.
  intros Hl Hjk.
  replace (firstn j l) with (firstn j (firstn k l)).
  - apply sumZ_firstn_le. apply (Forall_firstn_skipn _ l k Hl).
  - rewrite firstn_firstn. f_equal. lia.
Qed.

Lemma lenZ_snoc {A : Type} (pre : list A) (h : A) : lenZ (pre ++ [h]) = lenZ pre + 1.
Proof. unfold lenZ. rewrite length_app. cbn [length]. lia. Qed.

Lemma to_nat_succ_lenZ {A : Type} (pre : list A) :
  Z.to_nat (lenZ pre + 1) = S (length pre).
Proof. unfold lenZ. lia. Qed.

Lemma w_below_at (pre rest : list Z) (h : Z) :
  w_below (pre ++ h :: rest) (lenZ pre) = sumZ pre + h.
Proof.
  unfold w_below. rewrite to_nat_succ_lenZ, firstn_snoc, sumZ_app.
  unfold sumZ. cbn. lia.
Qed.

Lemma s_below_at (pre rest : list Z) (h : Z) :
  s_below (pre ++ h :: rest) (lenZ pre) = dot_arange 0 pre + lenZ pre * h.
Proof.
  unfold s_below. rewrite to_nat_succ_lenZ, firstn_snoc, dot_arange_app.
  cbn [dot_arange]. lia.
Qed.

Lemma w_below_bounds (hist : list Z) (t : Z) :
  Forall (fun x => 0 <= x) hist -> 0 <= w_below hist t <= sumZ hist.
Proof. intros Hh. apply sumZ_firstn_le, Hh. Qed.

Lemma w_below_mono (hist : list Z) (t t' : Z) :
  Forall (fun x => 0 <= x) hist -> t <= t' -> w_below hist t <= w_below hist t'.
Proof. intros Hh Ht. apply sumZ_firstn_mono; [exact Hh | lia]. Qed.

Section OtsuLoop.

Variable hist : list Z.
Hypothesis hist_nonneg : Forall (fun x => 0 <= x) hist.

Lemma otsu_inv_same (pre pre' : list Z) (st st' : otsu_state) :
  max_var st' = max_var st -> thresh st' = thresh st ->
  lenZ pre' = lenZ pre + 1 ->
  (forall t, candidate hist t -> t = lenZ pre ->
             PyFloat.ltb (max_var st) (var_at hist t) = false) ->
  otsu_inv hist pre st -> otsu_inv hist pre' st'.
Proof.
  intros Hm Ht Hl Hnew [Hall Hdis]. split.
  - intros t Hc Hlt. rewrite Hm.
    destruct (Z.eq_dec t (lenZ pre)) as [E|E]; [now apply Hnew|].
    apply Hall; [exact Hc | lia].
  - unfold never_assigned, earliest_maximum in *. rewrite Hm, Ht.
    destruct Hdis as [Hn|[He Hlt]]; [now left | right]. split; [exact He | lia].
Qed.

Lemma otsu_loop_post (rest pre : list Z) (st : otsu_state) :
  hist = pre ++ rest ->
  w_b st = sumZ pre -> sum_b st = dot_arange 0 pre ->
  otsu_inv hist pre st ->
  otsu_post hist (otsu_loop (sumZ hist) (dot_arange 0 hist) rest (lenZ pre) st).
Proof.
  revert pre st. induction rest as [|h rest IH]; intros pre st Hh Hw Hs Hinv.
  - cbn [otsu_loop]. destruct Hinv as [Hall Hdis]. split.
    + intros t Hc. apply Hall; [exact Hc|].
      destruct Hc as [Hr _]. rewrite Hh, app_nil_r in Hr. lia.
    + destruct Hdis as [Hn|[He _]]; [now left | now right].
  - assert (Hh' : hist = (pre ++ [h]) ++ rest) by (now rewrite <- app_assoc).
    assert (Hwb : w_below hist (lenZ pre) = sumZ pre + h)
      by (rewrite Hh at 1; apply w_below_at).
    assert (Hsb : s_below hist (lenZ pre) = dot_arange 0 pre + lenZ pre * h)
      by (rewrite Hh at 1; apply s_below_at).
    assert (Hh0 : 0 <= h).
    { rewrite Hh in hist_nonneg. apply Forall_app in hist_nonneg.
      destruct hist_nonneg as [_ Hr]. now inversion Hr. }
    assert (Hp0 : 0 <= sumZ pre).
    { apply sumZ_nonneg. rewrite Hh in hist_nonneg.
      now apply Forall_app in hist_nonneg. }
    assert (Hlen : lenZ hist = lenZ pre + 1 + lenZ rest).
    { rewrite Hh. unfold lenZ. rewrite length_app. cbn [length]. lia. }
    cbn [otsu_loop]. rewrite Hw, Hs.
    destruct (sumZ pre + h =? 0) eqn:E0.
    + (* continue *)
      apply Z.eqb_eq in E0.
      rewrite <- (lenZ_snoc pre h).
      apply IH; [exact Hh' | | | ].
      * cbn [w_b]. rewrite sumZ_app. unfold sumZ. cbn. lia.
      * cbn [sum_b]. rewrite dot_arange_app. cbn [dot_arange].
        assert (h = 0) by lia. subst h. lia.
      * eapply otsu_inv_same; [reflexivity | reflexivity | apply lenZ_snoc | | exact Hinv].
        intros t [_ [Hc _]] ->. rewrite Hwb in Hc. contradiction.
    + apply Z.eqb_neq in E0.
      destruct (sumZ hist - (sumZ pre + h) =? 0) eqn:E1.
      * (* break *)
        apply Z.eqb_eq in E1. destruct Hinv as [Hall Hdis]. split.
        -- intros t Hc. cbn [max_var].
           destruct (Z_lt_le_dec t (lenZ pre)) as [Hlt|Hge]; [now apply Hall|].
           exfalso. destruct Hc as [_ [_ Hc]]. apply Hc.
           assert (Hm := w_below_mono hist (lenZ pre) t hist_nonneg Hge).
           assert (Hb := w_below_bounds hist t hist_nonneg). lia.
        -- unfold never_assigned, earliest_maximum in *. cbn [max_var thresh].
           destruct Hdis as [Hn|[He _]]; [now left | now right].
      * apply Z.eqb_neq in E1.
        assert (Hcand : candidate hist (lenZ pre)).
        { unfold candidate. rewrite Hwb. unfold lenZ in *. lia. }
        assert (Hv : var_between (sumZ pre + h) (sumZ hist - (sumZ pre + h))
                       (dot_arange 0 pre + lenZ pre * h) (dot_arange 0 hist)
                     = var_at hist (lenZ pre)).
        { unfold var_at. now rewrite Hwb, Hsb. }
        rewrite Hv.
        destruct (PyFloat.ltb (max_var st) (var_at hist (lenZ pre))) eqn:Elt.
        -- (* a new maximum *)
           rewrite <- (lenZ_snoc pre h).
           apply IH; [exact Hh' | | | ].
           ++ cbn [w_b]. rewrite sumZ_app. unfold sumZ. cbn. lia.
           ++ cbn [sum_b]. rewrite dot_arange_app. cbn [dot_arange]. lia.
           ++ destruct Hinv as [Hall _]. split.
              ** intros t Hc Hlt. cbn [max_var]. rewrite lenZ_snoc in Hlt.
                 destruct (Z.eq_dec t (lenZ pre)) as [->|Hne];
                   [apply SFltb_irrefl|].
                 destruct (PyFloat.ltb (var_at hist (lenZ pre)) (var_at hist t)) eqn:E2;
                   [|reflexivity].
                 rewrite <- (Hall t Hc ltac:(lia)). symmetry.
                 eapply ltb_trans; eassumption.
              ** right. unfold earliest_maximum. cbn [max_var thresh].
                 rewrite lenZ_snoc. split; [|lia].
                 split; [exact Hcand|]. split; [reflexivity|].
                 intros t Hc Hlt.
                 destruct (PyFloat.leb (var_at hist (lenZ pre)) (var_at hist t)) eqn:E2;
                   [|reflexivity].
                 rewrite <- (Hall t Hc Hlt). symmetry.
                 eapply ltb_leb_trans; eassumption.
        -- rewrite <- (lenZ_snoc pre h).
           apply IH; [exact Hh' | | | ].
           ++ cbn [w_b]. rewrite sumZ_app. unfold sumZ. cbn. lia.
           ++ cbn [sum_b]. rewrite dot_arange_app. cbn [dot_arange]. lia.
           ++ eapply otsu_inv_same; [reflexivity | reflexivity | apply lenZ_snoc | | exact Hinv].
              intros t _ ->. exact Elt.
Qed.

End OtsuLoop.

(** *** The histogram of a byte array *)

Lemma sumZ_map_add (f g : Z -> Z) (l : list Z) :
  sumZ (map (fun v => f v + g v) l) = sumZ (map f l) + sumZ (map g l).
Proof. induction l as [|x l IH]; unfold sumZ in *; cbn; lia. Qed.

Lemma sumZ_indicator (x : Z) (n : nat) (lo : Z) :
  sumZ (map (fun v => if x =? v then 1 else 0) (range_from lo n))
  = if (lo <=? x) && (x <? lo + Z.of_nat n) then 1 else 0.
Proof.
  revert lo. induction n as [|n IH]; intros lo; cbn [range_from map].
  - unfold sumZ. cbn [fold_right].
    destruct (Z.leb_spec lo x); destruct (Z.ltb_spec x (lo + Z.of_nat 0));
      cbn [andb]; lia.
  - unfold sumZ in *. cbn [fold_right]. rewrite IH.
    destruct (Z.eqb_spec x lo); destruct (Z.leb_spec lo x);
      destruct (Z.leb_spec (lo + 1) x);
      destruct (Z.ltb_spec x (lo + 1 + Z.of_nat n));
      destruct (Z.ltb_spec x (lo + Z.of_nat (S n))); cbn [andb]; lia.
Qed.

Lemma count_eq_cons (v x : Z) (l : list Z) :
  count_eq v (x :: l) = (if x =? v then 1 else 0) + count_eq v l.
Proof.
  unfold count_eq, lenZ. cbn [filter]. destruct (x =? v); cbn [length]; lia.
Qed.

Lemma sumZ_counts (l : list Z) (n : nat) (lo : Z) :
  Forall (fun x => lo <= x < lo + Z.of_nat n) l ->
  sumZ (map (fun v => count_eq v l) (range_from lo n)) = lenZ l.
Proof.
  induction 1 as [|x l Hx Hl IH].
  - unfold count_eq, lenZ. cbn [filter length].
    induction (range_from lo n) as [|v r IHr]; unfold sumZ in *; cbn in *; lia.
  - rewrite (map_ext _ (fun v => (if x =? v then 1 else 0) + count_eq v l))
      by (intros v; apply count_eq_cons).
    rewrite sumZ_map_add, sumZ_indicator, IH.
    destruct (Z.leb_spec lo x); destruct (Z.ltb_spec x (lo + Z.of_nat n));
      cbn [andb]; unfold lenZ; cbn [length]; lia.
Qed.

(** For an array of bytes the histogram has 256 bins of non-negative counts
    that add up to the number of pixels: [otsu_threshold] is Otsu's scan of
    such a histogram. *)
Lemma histogram_of_bytes (gray : GrayArray) :
  Forall (fun v => 0 <= v < 256) (concat gray) ->
  length (histogram gray) = 256%nat
  /\ forallb (fun x => 0 <=? x) (histogram gray) = true
  /\ otsu_threshold gray = otsu_hist (histogram gray) (sumZ (histogram gray)).
Proof.
  intros Hb. unfold otsu_threshold, histogram. split; [|split].
  - rewrite length_map, length_range. reflexivity.
  - apply forallb_forall. intros x Hx. apply in_map_iff in Hx.
    destruct Hx as [v [<- _]]. unfold count_eq, lenZ. apply Z.leb_le. lia.
  - f_equal. symmetry. unfold range. apply sumZ_counts. exact Hb.
Qed.

Example otsu_black_white :
  otsu_hist hist_black_white (sumZ hist_black_white) = 0
  /\ otsu_threshold [[0; 255]] = 0.
Proof. split; vm_compute; reflexivity. Qed.




(** ** Compositing *)

(** C7: [skip_finders] does not influence the output: two runs of
    [build_overlay] that differ only in its value return the same overlay, or
    fail alike. *)
Theorem skip_finders_is_inert (qr_img : Image) (gray : GrayArray) (logo : Image)
  (modules_override quiet_override : option Z) (square_frac : float)
  (radius threshold_logo : Z) (threshold_qr : option Z) (alpha : Z)
  (skip1 skip2 : bool) :
  build_overlay qr_img gray logo modules_override quiet_override square_frac
    radius threshold_logo threshold_qr skip1 alpha
  = build_overlay qr_img gray logo modules_override quiet_override square_frac
      radius threshold_logo threshold_qr skip2 alpha.
Proof. reflexivity. Qed.

Lemma int_truediv_ok (a b : Z) :
  b <> 0 -> int_truediv a b = Ok (PyFloat.div (PyFloat.of_int a) (PyFloat.of_int b)).
Proof. intros Hb. unfold int_truediv. apply Z.eqb_neq in Hb. now rewrite Hb. Qed.

Lemma float_int_truediv_ok (x : float) (b : Z) :
  b <> 0 -> float_int_truediv x b = Ok (PyFloat.div x (PyFloat.of_int b)).
Proof. intros Hb. unfold float_int_truediv. apply Z.eqb_neq in Hb. now rewrite Hb. Qed.

Lemma center_xy_ok (total logo_w logo_h r c : Z) :
  total <> 0 -> exists xy, center_xy total logo_w logo_h r c = Ok xy.
Proof.
  intros Ht. unfold center_xy. rewrite (float_int_truediv_ok _ _ Ht).
  unfold bind. eexists. reflexivity.
Qed.

Lemma clamp_in_range (v hi : Z) : 0 <= hi -> 0 <= clamp v 0 hi <= hi.
Proof.
  intros Hhi. unfold clamp.
  destruct (v <? 0) eqn:E1; [lia|]. destruct (v >? hi) eqn:E2; lia.
Qed.

(** Every pixel the picker reads lies inside the logo. *)
Lemma center_xy_in_bounds (total logo_w logo_h r c x y : Z) :
  1 <= logo_w -> 1 <= logo_h ->
  center_xy total logo_w logo_h r c = Ok (x, y) ->
  0 <= x < logo_w /\ 0 <= y < logo_h.
Proof.
  intros Hw Hh. unfold center_xy.
  destruct (float_int_truediv one total); unfold bind; [|discriminate].
  intros E. injection E as <- <-.
  assert (H1 := clamp_in_range
    (PyFloat.round (PyFloat.mul (PyFloat.mul (PyFloat.add (PyFloat.of_int c) half) a)
                                (PyFloat.of_int logo_w))) (logo_w - 1) ltac:(lia)).
  assert (H2 := clamp_in_range
    (PyFloat.round (PyFloat.mul (PyFloat.mul (PyFloat.add (PyFloat.of_int r) half) a)
                                (PyFloat.of_int logo_h))) (logo_h - 1) ltac:(lia)).
  lia.
Qed.

Lemma search_neighbors_ok (logo : Image) (logo_w logo_h total R C : Z)
  (want_dark : bool) (thr : Z) (offs : list (Z * Z * Z)) :
  total <> 0 ->
  exists o, search_neighbors logo logo_w logo_h total R C want_dark thr offs = Ok o.
Proof.
  intros Ht. induction offs as [|[[dr dc] d2] rest IH]; cbn [search_neighbors].
  - eexists. reflexivity.
  - destruct (negb _); [exact IH|].
    destruct (center_xy_ok total logo_w logo_h (R + dr) (C + dc) Ht) as [[nx ny] E].
    rewrite E. unfold bind.
    destruct (neighbor_ok thr want_dark (getpixel logo nx ny)); [|exact IH].
    eexists. reflexivity.
Qed.

Lemma pick_logo_color_ok (logo : Image) (logo_w logo_h total qz row col : Z)
  (want_dark : bool) (thr radius : Z) :
  total <> 0 ->
  exists o, pick_logo_color logo logo_w logo_h total qz row col want_dark thr radius = Ok o.
Proof.
  intros Ht. unfold pick_logo_color.
  destruct (center_xy_ok total logo_w logo_h (row + qz) (col + qz) Ht) as [[cx cy] E].
  rewrite E. unfold bind.
  destruct (Bool.eqb _ want_dark).
  - eexists. reflexivity.
  - apply search_neighbors_ok, Ht.
Qed.

Lemma synthesize_color_ok (logo : Image) (Lw Lh total qz row col : Z)
  (want_dark : bool) (alpha : Z) :
  total <> 0 ->
  exists r g b, synthesize_color logo Lw Lh total qz row col want_dark alpha
                = Ok (r, g, b, alpha).
Proof.
  intros Ht. unfold synthesize_color. rewrite (float_int_truediv_ok _ _ Ht).
  unfold bind.
  destruct (adjust_color_toward _ want_dark blend_strength) as [[r g] b].
  exists r, g, b. reflexivity.
Qed.

Lemma sample_qr_module_dark_ok (qr_img : Image) (geo : QRGeometry)
  (unused : option Z) (row col : Z) :
  n_modules geo <> 0 ->
  exists want_dark, sample_qr_module_dark qr_img geo unused row col = Ok want_dark.
Proof.
  intros Hn. unfold sample_qr_module_dark.
  destruct (content_box geo) as [[[x_left y_top] x_right] y_bottom].
  rewrite !(int_truediv_ok _ _ Hn). unfold bind.
  destruct (getpixel qr_img _ _) as [[[pr pg] pb] pa].
  eexists. reflexivity.
Qed.

Lemma module_draw_ok (qr_img logo : Image) (geo : QRGeometry) (square_frac : float)
  (radius threshold_logo : Z) (threshold_qr : option Z) (alpha row col : Z) :
  n_modules geo <> 0 -> n_modules geo + 2 * qz_modules geo <> 0 ->
  exists xy r g b,
    module_draw qr_img logo geo square_frac radius threshold_logo threshold_qr
      alpha row col = Ok (xy, (r, g, b, alpha))
    /\ fill_source qr_img logo geo radius threshold_logo threshold_qr alpha row col
         (r, g, b, alpha).
Proof.
  intros Hn Ht. unfold module_draw, fill_source. cbv zeta.
  destruct (sample_qr_module_dark_ok qr_img geo threshold_qr row col Hn)
    as [want_dark Es].
  rewrite Es. unfold bind at 1.
  destruct (pick_logo_color_ok logo (width logo) (height logo) _ (qz_modules geo)
              row col want_dark threshold_logo radius Ht) as [o Eo].
  rewrite Eo. unfold bind at 1.
  assert (Hpix : exists r g b,
             match o with
             | Some p => let '(r, g, b, _) := p in Ok (r, g, b, alpha)
             | None => synthesize_color logo (width logo) (height logo)
                         (n_modules geo + 2 * qz_modules geo) (qz_modules geo)
                         row col want_dark alpha
             end = Ok (r, g, b, alpha)
             /\ match o with
                | Some p => (r, g, b, alpha) = (let '(r, g, b, _) := p in (r, g, b, alpha))
                | None => synthesize_color logo (width logo) (height logo)
                            (n_modules geo + 2 * qz_modules geo) (qz_modules geo)
                            row col want_dark alpha = Ok (r, g, b, alpha)
                end).
  { destruct o as [[[[r g] b] a]|].
    - exists r, g, b. split; reflexivity.
    - destruct (synthesize_color_ok logo (width logo) (height logo) _
                  (qz_modules geo) row col want_dark alpha Ht) as [r [g [b E]]].
      exists r, g, b. split; exact E. }
  destruct Hpix as [r [g [b [Hpix Hsrc]]]]. rewrite Hpix. unfold bind at 1.
  assert (Hfill : exists want_dark0 picked,
             Ok want_dark = Ok want_dark0
             /\ pick_logo_color logo (width logo) (height logo)
                  (n_modules geo + 2 * qz_modules geo) (qz_modules geo) row col
                  want_dark0 threshold_logo radius = Ok picked
             /\ match picked with
                | Some p => (r, g, b, alpha) = (let '(r, g, b, _) := p in (r, g, b, alpha))
                | None => synthesize_color logo (width logo) (height logo)
                            (n_modules geo + 2 * qz_modules geo) (qz_modules geo)
                            row col want_dark0 alpha = Ok (r, g, b, alpha)
                end).
  { exists want_dark, o. split; [reflexivity|]. split; [exact Eo | exact Hsrc]. }
  destruct (in_finder (n_modules geo) row col).
  - unfold cell_bounds. rewrite (float_int_truediv_ok _ _ Ht). unfold bind.
    eexists _, r, g, b. split; [reflexivity | exact Hfill].
  - unfold mini_square. rewrite (float_int_truediv_ok _ _ Ht), !(int_truediv_ok _ _ Ht).
    unfold bind. eexists _, r, g, b. split; [reflexivity | exact Hfill].
Qed.









(** ** Colour picking *)

(** *** The sorted offsets *)

Lemma in_offsets (radius dr dc d2 : Z) :
  In (dr, dc, d2) (offsets radius)
  <-> (- radius <= dr <= radius /\ - radius <= dc <= radius)
      /\ ~ (dr = 0 /\ dc = 0) /\ d2 = dr * dr + dc * dc.
Proof.
  unfold offsets. rewrite in_flat_map. split.
  - intros [r [Hr Hin]]. apply in_flat_map in Hin. destruct Hin as [c [Hc Hin]].
    apply in_range in Hr. apply in_range in Hc.
    destruct ((r =? 0) && (c =? 0)) eqn:E; [destruct Hin|].
    destruct Hin as [Hin|[]]. injection Hin as -> -> <-.
    apply andb_false_iff in E. lia.
  - intros [[Hr Hc] [Hne ->]]. exists dr. split; [apply in_range; lia|].
    apply in_flat_map. exists dc. split; [apply in_range; lia|].
    destruct ((dr =? 0) && (dc =? 0)) eqn:E.
    + apply andb_prop in E. lia.
    + now left.
Qed.

Lemma in_insert_offset (o p : Z * Z * Z) (l : list (Z * Z * Z)) :
  In p (insert_offset o l) <-> p = o \/ In p l.
Proof.
  induction l as [|q l IH]; cbn [insert_offset In].
  - intuition congruence.
  - destruct (d2_of o <=? d2_of q); cbn [In]; [intuition congruence|].
    rewrite IH. intuition congruence.
Qed.

Lemma in_sort_offsets (p : Z * Z * Z) (l : list (Z * Z * Z)) :
  In p (sort_offsets l) <-> In p l.
Proof.
  induction l as [|o l IH]; cbn [sort_offsets fold_right In]; [tauto|].
  fold (sort_offsets l). rewrite in_insert_offset, IH. intuition congruence.
Qed.

Lemma visited_before_trans_le (o p q : Z * Z * Z) :
  d2_of o <= d2_of p -> visited_before p q -> d2_of o <= d2_of q.
Proof. unfold visited_before. lia. Qed.

Lemma insert_offset_sorted (o : Z * Z * Z) (l : list (Z * Z * Z)) :
  StronglySorted visited_before l ->
  Forall (generated_before o) l ->
  StronglySorted visited_before (insert_offset o l).
Proof.
  intros Hs Hg. induction Hs as [|p l Hs IH Hp]; cbn [insert_offset].
  - constructor; constructor.
  - inversion Hg as [|? ? Hop Hol]; subst.
    destruct (d2_of o <=? d2_of p) eqn:E.
    + apply Z.leb_le in E. constructor; [constructor; assumption|].
      constructor.
      * unfold visited_before. destruct (Z.eq_dec (d2_of o) (d2_of p)); [right|left]; [tauto|lia].
      * rewrite Forall_forall in *. intros q Hq.
        assert (Hle := visited_before_trans_le o p q E (Hp q Hq)).
        unfold visited_before.
        destruct (Z.eq_dec (d2_of o) (d2_of q)); [right|left]; [|lia].
        split; [assumption | apply Hol, Hq].
    + apply Z.leb_gt in E. constructor; [apply IH, Hol|].
      rewrite Forall_forall in *. intros q Hq. apply in_insert_offset in Hq.
      destruct Hq as [->|Hq]; [|apply Hp, Hq].
      left. exact E.
Qed.

Lemma sort_offsets_sorted (l : list (Z * Z * Z)) :
  StronglySorted generated_before l ->
  StronglySorted visited_before (sort_offsets l).
Proof.
  induction 1 as [|o l Hs IH Ho]; cbn [sort_offsets fold_right].
  - constructor.
  - fold (sort_offsets l). apply insert_offset_sorted; [exact IH|].
    rewrite Forall_forall in *. intros q Hq. apply Ho, in_sort_offsets, Hq.
Qed.

Lemma sorted_app {A : Type} (R : A -> A -> Prop) (l1 l2 : list A) :
  StronglySorted R l1 -> StronglySorted R l2 ->
  (forall a b, In a l1 -> In b l2 -> R a b) ->
  StronglySorted R (l1 ++ l2).
Proof.
  intros H1 H2 H. induction H1 as [|a l1 H1 IH Ha]; cbn [app]; [exact H2|].
  constructor.
  - apply IH. intros x y Hx Hy. apply H; [now right | exact Hy].
  - apply Forall_app. split; [exact Ha|].
    apply Forall_forall. intros y Hy. apply H; [now left | exact Hy].
Qed.

Lemma flat_map_sorted {A B : Type} (RA : A -> A -> Prop) (RB : B -> B -> Prop)
  (f : A -> list B) (l : list A) :
  StronglySorted RA l ->
  (forall a, In a l -> StronglySorted RB (f a)) ->
  (forall a a' b b', RA a a' -> In b (f a) -> In b' (f a') -> RB b b') ->
  StronglySorted RB (flat_map f l).
Proof.
  intros Hl Hf Hc. induction Hl as [|a l Hl IH Ha]; cbn [flat_map]; [constructor|].
  apply sorted_app.
  - apply Hf. now left.
  - apply IH. intros x Hx. apply Hf. now right.
  - intros b b' Hb Hb'. apply in_flat_map in Hb'. destruct Hb' as [a' [Ha' Hb']].
    rewrite Forall_forall in Ha. exact (Hc a a' b b' (Ha a' Ha') Hb Hb').
Qed.

Lemma range_from_sorted (n : nat) (lo : Z) : StronglySorted Z.lt (range_from lo n).
Proof.
  revert lo. induction n as [|n IH]; intros lo; cbn [range_from]; constructor.
  - apply IH.
  - apply Forall_forall. intros x Hx. apply in_range_from in Hx. lia.
Qed.

Lemma offsets_generated_in_order (radius : Z) :
  StronglySorted generated_before (offsets radius).
Proof.
  unfold offsets, range.
  apply flat_map_sorted with (RA := Z.lt); [apply range_from_sorted | |].
  - intros dr _. apply flat_map_sorted with (RA := Z.lt); [apply range_from_sorted | |].
    + intros dc _. destruct ((dr =? 0) && (dc =? 0)); repeat constructor.
    + intros dc dc' b b' Hlt Hb Hb'.
      destruct ((dr =? 0) && (dc =? 0)); [destruct Hb|].
      destruct ((dr =? 0) && (dc' =? 0)); [destruct Hb'|].
      destruct Hb as [<-|[]]. destruct Hb' as [<-|[]].
      unfold generated_before. lia.
  - intros dr dr' b b' Hlt Hb Hb'.
    apply in_flat_map in Hb. destruct Hb as [dc [_ Hb]].
    apply in_flat_map in Hb'. destruct Hb' as [dc' [_ Hb']].
    destruct ((dr =? 0) && (dc =? 0)); [destruct Hb|].
    destruct ((dr' =? 0) && (dc' =? 0)); [destruct Hb'|].
    destruct Hb as [<-|[]]. destruct Hb' as [<-|[]].
    unfold generated_before. lia.
Qed.

Lemma sorted_middle {A : Type} (R : A -> A -> Prop) (l1 l2 : list A) (o : A) :
  StronglySorted R (l1 ++ o :: l2) -> Forall (R o) l2.
Proof.
  induction l1 as [|a l1 IH]; cbn [app]; intros H; inversion H; subst; auto.
Qed.

(** *** The search *)

Section Search.

Variables (logo : Image) (logo_w logo_h total R C : Z) (want_dark : bool) (thr : Z).
Hypothesis total_nonzero : total <> 0.

Lemma grid_pixel_ok (r c : Z) :
  exists x y, center_xy total logo_w logo_h r c = Ok (x, y)
              /\ grid_pixel logo logo_w logo_h total r c = Ok (getpixel logo x y).
Proof.
  destruct (center_xy_ok total logo_w logo_h r c total_nonzero) as [[x y] E].
  exists x, y. split; [exact E|]. unfold grid_pixel. now rewrite E.
Qed.

(** The loop returns the first offset of its list that is in bounds and
    whose pixel passes the test. *)
Lemma search_neighbors_first (offs : list (Z * Z * Z)) :
  match search_neighbors logo logo_w logo_h total R C want_dark thr offs with
  | Ok (Some npix) =>
      exists l1 dr dc d2 l2,
        offs = l1 ++ (dr, dc, d2) :: l2
        /\ match_at logo logo_w logo_h total R C want_dark thr dr dc npix
        /\ forall dr' dc' d2' p, In (dr', dc', d2') l1 ->
             ~ match_at logo logo_w logo_h total R C want_dark thr dr' dc' p
  | Ok None =>
      forall dr' dc' d2' p, In (dr', dc', d2') offs ->
        ~ match_at logo logo_w logo_h total R C want_dark thr dr' dc' p
  | Err _ => False
  end.
Proof.
  induction offs as [|[[dr dc] d2] rest IH]; cbn [search_neighbors].
  - intros ? ? ? ? [].
  - fold (in_grid total (R + dr) (C + dc)).
    assert (Hskip : (forall p, ~ match_at logo logo_w logo_h total R C want_dark thr dr dc p) ->
      match search_neighbors logo logo_w logo_h total R C want_dark thr rest with
      | Ok (Some npix) =>
          exists l1 dr0 dc0 d20 l2,
            (dr, dc, d2) :: rest = l1 ++ (dr0, dc0, d20) :: l2
            /\ match_at logo logo_w logo_h total R C want_dark thr dr0 dc0 npix
            /\ forall dr' dc' d2' p, In (dr', dc', d2') l1 ->
                 ~ match_at logo logo_w logo_h total R C want_dark thr dr' dc' p
      | Ok None =>
          forall dr' dc' d2' p, In (dr', dc', d2') ((dr, dc, d2) :: rest) ->
            ~ match_at logo logo_w logo_h total R C want_dark thr dr' dc' p
      | Err _ => False
      end).
    { intros Hno.
      destruct (search_neighbors logo logo_w logo_h total R C want_dark thr rest)
        as [[npix|]|e]; [| |exact IH].
      - destruct IH as [l1 [dr0 [dc0 [d20 [l2 [E [Hm Hbefore]]]]]]].
        exists ((dr, dc, d2) :: l1), dr0, dc0, d20, l2.
        split; [cbn [app]; now rewrite E|]. split; [exact Hm|].
        intros dr' dc' d2' p [Hin|Hin]; [injection Hin as <- <- <-; apply Hno|].
        eapply Hbefore, Hin.
      - intros dr' dc' d2' p [Hin|Hin]; [injection Hin as <- <- <-; apply Hno|].
        eapply IH, Hin. }
    destruct (in_grid total (R + dr) (C + dc)) eqn:Eg; cbn [negb].
    + destruct (grid_pixel_ok (R + dr) (C + dc)) as [nx [ny [Exy Epx]]].
      rewrite Exy. unfold bind.
      destruct (neighbor_ok thr want_dark (getpixel logo nx ny)) eqn:En.
      * exists [], dr, dc, d2, rest. split; [reflexivity|].
        split; [repeat split; assumption|]. intros ? ? ? ? [].
      * apply Hskip. intros p [_ [Hp Hok]]. rewrite Epx in Hp.
        injection Hp as <-. congruence.
    + apply Hskip. intros p [Hg _]. congruence.
Qed.

End Search.

Section Picker.

Variables (logo : Image) (logo_w logo_h total qz row col : Z) (thr radius : Z).
Variable center : RGBA.
Hypothesis total_nonzero : total <> 0.
Hypothesis center_pixel :
  grid_pixel logo logo_w logo_h total (row + qz) (col + qz) = Ok center.

Lemma pick_logo_color_cases (want_dark : bool) :
  pick_logo_color logo logo_w logo_h total qz row col want_dark thr radius
  = if Bool.eqb (is_dark_rgba thr center) want_dark then Ok (Some center)
    else search_neighbors logo logo_w logo_h total (row + qz) (col + qz) want_dark thr
           (sort_offsets (offsets radius)).
Proof.
  unfold pick_logo_color. unfold grid_pixel in center_pixel.
  destruct (center_xy total logo_w logo_h (row + qz) (col + qz)) as [[cx cy]|e];
    unfold bind in *; [|discriminate center_pixel].
  injection center_pixel as <-. reflexivity.
Qed.

Lemma pick_logo_color_neighbor (want_dark : bool) (npix : RGBA) :
  is_dark_rgba thr center <> want_dark ->
  pick_logo_color logo logo_w logo_h total qz row col want_dark thr radius = Ok (Some npix) ->
  exists dr dc,
    ((- radius <= dr <= radius /\ - radius <= dc <= radius) /\ ~ (dr = 0 /\ dc = 0))
    /\ match_at logo logo_w logo_h total (row + qz) (col + qz) want_dark thr dr dc npix
    /\ forall dr' dc' p,
         (- radius <= dr' <= radius /\ - radius <= dc' <= radius) ->
         ~ (dr' = 0 /\ dc' = 0) ->
         match_at logo logo_w logo_h total (row + qz) (col + qz) want_dark thr dr' dc' p ->
         no_later dr dc dr' dc'.
Proof.
  intros Hne Hpick. rewrite pick_logo_color_cases in Hpick.
  destruct (Bool.eqb (is_dark_rgba thr center) want_dark) eqn:E;
    [apply eqb_prop in E; contradiction|].
  assert (Hf := search_neighbors_first logo logo_w logo_h total (row + qz) (col + qz)
                  want_dark thr total_nonzero (sort_offsets (offsets radius))).
  rewrite Hpick in Hf.
  destruct Hf as [l1 [dr [dc [d2 [l2 [Hl [Hm Hbefore]]]]]]].
  assert (Hin : In (dr, dc, d2) (offsets radius)).
  { apply in_sort_offsets. rewrite Hl. apply in_elt. }
  apply in_offsets in Hin. destruct Hin as [Hr [Hnz Hd2]].
  exists dr, dc. split; [split; assumption|]. split; [exact Hm|].
  intros dr' dc' p Hr' Hnz' Hm'.
  assert (Hin' : In (dr', dc', dr' * dr' + dc' * dc') (sort_offsets (offsets radius))).
  { apply in_sort_offsets, in_offsets. repeat split; try tauto. }
  rewrite Hl in Hin'. apply in_app_or in Hin'.
  destruct Hin' as [Hin'|[Heq|Hin']].
  - exfalso. exact (Hbefore _ _ _ p Hin' Hm').
  - injection Heq as -> -> _. unfold no_later. right. lia.
  - assert (Hs := sort_offsets_sorted _ (offsets_generated_in_order radius)).
    rewrite Hl in Hs. apply sorted_middle in Hs. rewrite Forall_forall in Hs.
    specialize (Hs _ Hin'). unfold visited_before, generated_before, d2_of in Hs.
    cbn [snd] in Hs. unfold no_later. lia.
Qed.

Lemma pick_logo_color_none (want_dark : bool) :
  is_dark_rgba thr center <> want_dark ->
  pick_logo_color logo logo_w logo_h total qz row col want_dark thr radius = Ok None ->
  forall dr' dc' p,
    (- radius <= dr' <= radius /\ - radius <= dc' <= radius) ->
    ~ (dr' = 0 /\ dc' = 0) ->
    ~ match_at logo logo_w logo_h total (row + qz) (col + qz) want_dark thr dr' dc' p.
Proof.
  intros Hne Hpick. rewrite pick_logo_color_cases in Hpick.
  destruct (Bool.eqb (is_dark_rgba thr center) want_dark) eqn:E; [discriminate Hpick|].
  assert (Hf := search_neighbors_first logo logo_w logo_h total (row + qz) (col + qz)
                  want_dark thr total_nonzero (sort_offsets (offsets radius))).
  rewrite Hpick in Hf.
  intros dr' dc' p Hr' Hnz'. apply (Hf dr' dc' (dr' * dr' + dc' * dc')).
  apply in_sort_offsets, in_offsets. repeat split; try tauto.
Qed.

End Picker.

Lemma offsets_radius_0 : sort_offsets (offsets 0) = [].
Proof. reflexivity. Qed.

(** C9: with radius 0 the picker returns a pixel exactly when the centre
    pixel's classification matches the desired darkness (and then it is the
    centre pixel).  With any radius, when the centre does not match, a
    returned pixel is the one of an in-bounds neighbour offset that passes
    the test and that is visited no later than every other such offset: by
    ascending squared distance, equal distances in the row-major order in
    which the offsets are generated ([dc] within [dr]); and no result means
    that no in-bounds offset within the radius passes the test. *)
Theorem pick_logo_color_nearest (logo : Image)
  (logo_w logo_h total qz row col : Z) (want_dark : bool) (thr radius : Z)
  (center : RGBA) :
  total <> 0 ->
  grid_pixel logo logo_w logo_h total (row + qz) (col + qz) = Ok center ->
  (radius = 0 ->
   pick_logo_color logo logo_w logo_h total qz row col want_dark thr radius
   = Ok (if Bool.eqb (is_dark_rgba thr center) want_dark then Some center else None))
  /\ (is_dark_rgba thr center = want_dark ->
      pick_logo_color logo logo_w logo_h total qz row col want_dark thr radius
      = Ok (Some center))
  /\ (is_dark_rgba thr center <> want_dark ->
      (forall npix,
         pick_logo_color logo logo_w logo_h total qz row col want_dark thr radius
         = Ok (Some npix) ->
         exists dr dc,
           ((- radius <= dr <= radius /\ - radius <= dc <= radius)
            /\ ~ (dr = 0 /\ dc = 0))
           /\ match_at logo logo_w logo_h total (row + qz) (col + qz) want_dark thr
                dr dc npix
           /\ forall dr' dc' p,
                (- radius <= dr' <= radius /\ - radius <= dc' <= radius) ->
                ~ (dr' = 0 /\ dc' = 0) ->
                match_at logo logo_w logo_h total (row + qz) (col + qz) want_dark thr
                  dr' dc' p ->
                no_later dr dc dr' dc')
      /\ (pick_logo_color logo logo_w logo_h total qz row col want_dark thr radius
          = Ok None ->
          forall dr' dc' p,
            (- radius <= dr' <= radius /\ - radius <= dc' <= radius) ->
            ~ (dr' = 0 /\ dc' = 0) ->
            ~ match_at logo logo_w logo_h total (row + qz) (col + qz) want_dark thr
                dr' dc' p)
      /\ exists o,
           pick_logo_color logo logo_w logo_h total qz row col want_dark thr radius
           = Ok o).
Proof.
  intros Ht Hc. split; [|split].
  - intros ->. rewrite (pick_logo_color_cases _ _ _ _ _ _ _ _ _ _ Hc).
    rewrite offsets_radius_0. cbn [search_neighbors].
    destruct (Bool.eqb (is_dark_rgba thr center) want_dark); reflexivity.
  - intros E. rewrite (pick_logo_color_cases _ _ _ _ _ _ _ _ _ _ Hc).
    rewrite E, eqb_reflx. reflexivity.
  - intros Hne. split; [|split].
    + intros npix. now apply pick_logo_color_neighbor with (center := center).
    + now apply pick_logo_color_none with (center := center).
    + apply pick_logo_color_ok, Ht.
Qed.

(** On the white logo with one black pixel, a dark colour for the cell
    (1, 1) is found two cells to the right: the four offsets at distance 1
    and the four at squared distance 2 are visited first and fail. *)
Example pick_logo_color_black_pixel :
  pick_logo_color one_black_4x4 4 4 4 0 1 1 true 145 2 = Ok (Some (0, 0, 0, 255))
  /\ pick_logo_color one_black_4x4 4 4 4 0 1 1 true 145 1 = Ok None
  /\ sort_offsets (offsets 1)
     = [(-1, 0, 1); (0, -1, 1); (0, 1, 1); (1, 0, 1);
        (-1, -1, 2); (-1, 1, 2); (1, -1, 2); (1, 1, 2)].
Proof. repeat split; vm_compute; reflexivity. Qed.

Lemma pick_logo_color_nearest_witness :
  (2 = 0 ->
   pick_logo_color one_black_4x4 4 4 4 0 1 1 true 145 2
   = Ok (if Bool.eqb (is_dark_rgba 145 (255, 255, 255, 255)) true
         then Some (255, 255, 255, 255) else None))
  /\ (is_dark_rgba 145 (255, 255, 255, 255) = true ->
      pick_logo_color one_black_4x4 4 4 4 0 1 1 true 145 2
      = Ok (Some (255, 255, 255, 255)))
  /\ (is_dark_rgba 145 (255, 255, 255, 255) <> true ->
      (forall npix,
         pick_logo_color one_black_4x4 4 4 4 0 1 1 true 145 2 = Ok (Some npix) ->
         exists dr dc,
           ((- 2 <= dr <= 2 /\ - 2 <= dc <= 2) /\ ~ (dr = 0 /\ dc = 0))
           /\ match_at one_black_4x4 4 4 4 (1 + 0) (1 + 0) true 145 dr dc npix
           /\ forall dr' dc' p,
                (- 2 <= dr' <= 2 /\ - 2 <= dc' <= 2) ->
                ~ (dr' = 0 /\ dc' = 0) ->
                match_at one_black_4x4 4 4 4 (1 + 0) (1 + 0) true 145 dr' dc' p ->
                no_later dr dc dr' dc')
      /\ (pick_logo_color one_black_4x4 4 4 4 0 1 1 true 145 2 = Ok None ->
          forall dr' dc' p,
            (- 2 <= dr' <= 2 /\ - 2 <= dc' <= 2) ->
            ~ (dr' = 0 /\ dc' = 0) ->
            ~ match_at one_black_4x4 4 4 4 (1 + 0) (1 + 0) true 145 dr' dc' p)
      /\ exists o, pick_logo_color one_black_4x4 4 4 4 0 1 1 true 145 2 = Ok o).
Proof.
  apply (pick_logo_color_nearest one_black_4x4 4 4 4 0 1 1 true 145 2
           (255, 255, 255, 255)).
  - lia.
  - vm_compute. reflexivity.
Defined.

Lemma neighbor_ok_alpha (thr : Z) (want_dark : bool) (npix : RGBA) :
  neighbor_ok thr want_dark npix = true -> 10 <= alpha_of npix.
Proof. unfold neighbor_ok. intros H. apply andb_prop in H. lia. Qed.

Lemma is_dark_rgba_transparent (thr : Z) (px : RGBA) :
  alpha_of px < 10 -> is_dark_rgba thr px = false.
Proof.
  destruct px as [[[r g] b] a]. cbn [alpha_of]. intros Ha. unfold is_dark_rgba.
  apply Z.ltb_lt in Ha. now rewrite Ha.
Qed.

(** C10: the alpha >= 10 requirement bears on the pixels returned from the
    neighbour search only.  A centre pixel with alpha < 10 is classified
    light, so when a light colour is wanted the picker returns it at once;
    whereas a pixel returned after the centre failed to match always has
    alpha >= 10. *)
Theorem transparent_center_returned_when_light_wanted (logo : Image)
  (logo_w logo_h total qz row col thr radius : Z) (center : RGBA) :
  total <> 0 ->
  grid_pixel logo logo_w logo_h total (row + qz) (col + qz) = Ok center ->
  (alpha_of center < 10 ->
   is_dark_rgba thr center = false
   /\ pick_logo_color logo logo_w logo_h total qz row col false thr radius
      = Ok (Some center))
  /\ (forall want_dark npix,
        is_dark_rgba thr center <> want_dark ->
        pick_logo_color logo logo_w logo_h total qz row col want_dark thr radius
        = Ok (Some npix) ->
        10 <= alpha_of npix).
Proof.
  intros Ht Hc. split.
  - intros Ha. assert (Hd := is_dark_rgba_transparent thr center Ha).
    split; [exact Hd|].
    rewrite (pick_logo_color_cases _ _ _ _ _ _ _ _ _ _ Hc), Hd. reflexivity.
  - intros want_dark npix Hne Hpick.
    destruct (pick_logo_color_neighbor _ _ _ _ _ _ _ _ _ _ Ht Hc _ _ Hne Hpick)
      as [dr [dc [_ [[_ [_ Hok]] _]]]].
    eapply neighbor_ok_alpha, Hok.
Qed.

Lemma transparent_center_returned_when_light_wanted_witness :
  (alpha_of (0, 0, 0, 0) < 10 ->
   is_dark_rgba 145 (0, 0, 0, 0) = false
   /\ pick_logo_color one_white_4x4 4 4 4 0 1 1 false 145 2 = Ok (Some (0, 0, 0, 0)))
  /\ (forall want_dark npix,
        is_dark_rgba 145 (0, 0, 0, 0) <> want_dark ->
        pick_logo_color one_white_4x4 4 4 4 0 1 1 want_dark 145 2 = Ok (Some npix) ->
        10 <= alpha_of npix).
Proof.
  apply (transparent_center_returned_when_light_wanted one_white_4x4 4 4 4 0 1 1
           145 2 (0, 0, 0, 0)).
  - lia.
  - vm_compute. reflexivity.
Defined.

(** * Further properties of the code *)

(** ** Clamping *)

Lemma clamp_max_min (v lo hi : Z) :
  lo <= hi -> clamp v lo hi = Z.max lo (Z.min v hi).
Proof.
  intros Hle. unfold clamp.
  destruct (Z.ltb_spec v lo); [lia|]. rewrite Z.gtb_ltb.
  destruct (Z.ltb_spec hi v); lia.
Qed.

(** X1: for a non-empty interval [clamp] lands in the interval, leaves a
    value of the interval unchanged, is [max lo (min v hi)], and clamping
    twice changes nothing. *)
Theorem clamp_spec (v lo hi : Z) :
  lo <= hi ->
  lo <= clamp v lo hi <= hi
  /\ (lo <= v <= hi -> clamp v lo hi = v)
  /\ clamp v lo hi = Z.max lo (Z.min v hi)
  /\ clamp (clamp v lo hi) lo hi = clamp v lo hi.
Proof.
  intros Hle.
  assert (H1 := clamp_max_min v lo hi Hle).
  assert (H2 := clamp_max_min (clamp v lo hi) lo hi Hle).
  repeat split; lia.
Qed.

Lemma clamp_spec_witness :
  0 <= clamp 300 0 255 <= 255
  /\ (0 <= 300 <= 255 -> clamp 300 0 255 = 300)
  /\ clamp 300 0 255 = Z.max 0 (Z.min 300 255)
  /\ clamp (clamp 300 0 255) 0 255 = clamp 300 0 255.
Proof. apply (clamp_spec 300 0 255). lia. Defined.

(** ** Cells of the overlay *)

(** X2: the full cells tile the overlay: the cell to the right of a cell
    starts one pixel after it ends, the cell below starts one pixel below,
    and the horizontal extent depends on the column only, the vertical one on
    the row only. *)
Theorem cell_bounds_abut (Lw Lh total qz row col : Z) :
  total <> 0 ->
  exists x0 y0 x1 y1 x2 y2,
    cell_bounds Lw Lh total qz row col = Ok (x0, y0, x1, y1)
    /\ cell_bounds Lw Lh total qz row (col + 1) = Ok (x1 + 1, y0, x2, y1)
    /\ cell_bounds Lw Lh total qz (row + 1) col = Ok (x0, y1 + 1, x1, y2).
Proof.
  intros Ht. unfold cell_bounds. rewrite (float_int_truediv_ok _ _ Ht). unfold bind.
  replace (col + 1 + qz) with (col + qz + 1) by lia.
  replace (row + 1 + qz) with (row + qz + 1) by lia.
  do 6 eexists. split; [reflexivity|]. split; f_equal; repeat f_equal; lia.
Qed.

Lemma cell_bounds_abut_witness :
  exists x0 y0 x1 y1 x2 y2,
    cell_bounds 290 290 29 4 0 0 = Ok (x0, y0, x1, y1)
    /\ cell_bounds 290 290 29 4 0 (0 + 1) = Ok (x1 + 1, y0, x2, y1)
    /\ cell_bounds 290 290 29 4 (0 + 1) 0 = Ok (x0, y1 + 1, x1, y2).
Proof. apply (cell_bounds_abut 290 290 29 4 0 0). lia. Defined.



(** ** Colour synthesis, continued *)


Lemma push_monotone_all : forallb push_is_monotone (range 0 256) = true.
Proof. vm_compute. reflexivity. Qed.

Lemma push_step (c : Z) :
  0 <= c <= 255 ->
  (push_dark c <= c /\ c <= push_light c)
  /\ push_dark c <= push_dark (c + 1) /\ push_light c <= push_light (c + 1).
Proof.
  intros Hc. assert (H := range_forallb _ _ _ push_monotone_all c ltac:(lia)).
  unfold push_is_monotone in H.
  repeat match goal with
         | H : andb _ _ = true |- _ => apply andb_prop in H; destruct H
         end.
  repeat split; apply Z.leb_le; assumption.
Qed.

Lemma push_monotone_upto (k : nat) (c : Z) :
  0 <= c -> c + Z.of_nat k <= 256 ->
  push_dark c <= push_dark (c + Z.of_nat k)
  /\ push_light c <= push_light (c + Z.of_nat k).
Proof.
  induction k as [|k IH]; intros Hc Hk.
  - replace (c + Z.of_nat 0) with c by lia. lia.
  - destruct (IH Hc ltac:(lia)) as [Hd Hl].
    destruct (push_step (c + Z.of_nat k) ltac:(lia)) as [_ [Hd' Hl']].
    replace (c + Z.of_nat (S k)) with (c + Z.of_nat k + 1) by lia. lia.
Qed.

(** X5: with the blend strength 0.40, on byte channels, pushing toward dark
    never brightens and pushing toward light never darkens, and both keep
    the order of two channel values. *)
Theorem blend_keeps_order (c c' : Z) :
  0 <= c -> c <= c' -> c' <= 255 ->
  (push_dark c <= c /\ c <= push_light c)
  /\ push_dark c <= push_dark c'
  /\ push_light c <= push_light c'.
Proof.
  intros H0 Hcc H255. split; [apply push_step; lia|].
  assert (H := push_monotone_upto (Z.to_nat (c' - c)) c H0 ltac:(lia)).
  replace (c + Z.of_nat (Z.to_nat (c' - c))) with c' in H by lia. exact H.
Qed.

Lemma blend_keeps_order_witness :
  (push_dark 100 <= 100 /\ 100 <= push_light 100)
  /\ push_dark 100 <= push_dark 200
  /\ push_light 100 <= push_light 200.
Proof. apply (blend_keeps_order 100 200); lia. Defined.

(** ** Module sampling *)

Lemma gray601_all : forallb gray601_exact (range 0 256) = true.
Proof. vm_compute. reflexivity. Qed.

Lemma sample_qr_module_dark_gray601 (qr_img : Image) (geo : QRGeometry)
  (unused : option Z) (row col : Z) :
  n_modules geo <> 0 ->
  exists x y,
    sample_qr_module_dark qr_img geo unused row col
    = Ok (let '(r, g, b, _) := getpixel qr_img x y in
          if dark_is_lt geo then gray601 r g b <? geo_thresh geo
          else gray601 r g b >? geo_thresh geo).
Proof.
  intros Hn. unfold sample_qr_module_dark.
  destruct (content_box geo) as [[[x_left y_top] x_right] y_bottom].
  rewrite !(int_truediv_ok _ _ Hn). unfold bind.
  match goal with
  | |- context [getpixel qr_img ?x ?y] => exists x, y
  end.
  destruct (getpixel qr_img _ _) as [[[r g] b] a]. reflexivity.
Qed.

(** X6: on a bitmap whose pixels all have the grey level [v] (a byte), the
    sampler's luminance is [v] exactly, so every module is reported dark
    exactly when [v] is on the dark side of the threshold: an all-white
    bitmap is light everywhere for [dark_is_lt] and a threshold up to 255,
    an all-black one dark everywhere for a threshold of at least 1. *)
Theorem sample_of_gray_bitmap (qr_img : Image) (geo : QRGeometry)
  (unused : option Z) (row col v : Z) :
  n_modules geo <> 0 -> 0 <= v <= 255 ->
  (forall x y, rgb_of (getpixel qr_img x y) = (v, v, v)) ->
  sample_qr_module_dark qr_img geo unused row col
  = Ok (if dark_is_lt geo then v <? geo_thresh geo else v >? geo_thresh geo).
Proof.
  intros Hn Hv Hpx.
  destruct (sample_qr_module_dark_gray601 qr_img geo unused row col Hn) as [x [y E]].
  rewrite E. specialize (Hpx x y).
  destruct (getpixel qr_img x y) as [[[r g] b] a]. cbn [rgb_of] in Hpx.
  injection Hpx as -> -> ->.
  assert (H := range_forallb _ _ _ gray601_all v ltac:(lia)).
  unfold gray601_exact in H. apply Z.eqb_eq in H. rewrite H. reflexivity.
Qed.

Lemma sample_of_gray_bitmap_witness :
  sample_qr_module_dark black_6x6 geo_2 None 1 1
  = Ok (if dark_is_lt geo_2 then 0 <? geo_thresh geo_2 else 0 >? geo_thresh geo_2).
Proof.
  apply (sample_of_gray_bitmap black_6x6 geo_2 None 1 1 0).
  - cbn. lia.
  - lia.
  - intros x y. reflexivity.
Defined.

(** ** The logo's luminance *)

Lemma gray_luminance_all : forallb gray_luminance_ordered (range 0 256) = true.
Proof. vm_compute. reflexivity. Qed.

(** X7: for a grey pixel of level [v] and a threshold [thr] (bytes, or 256),
    the logo's luminance test [luminance < thr] holds whenever [v < thr] and
    fails whenever [v > thr]; at [v = thr] it may hold, because the weighted
    sum is computed in floating point: level 5 is below the threshold 5. *)
Theorem lum_below_gray (v thr : Z) :
  0 <= v <= 255 -> 0 <= thr <= 256 ->
  (v < thr -> lum_below (v, v, v) thr = true)
  /\ (thr < v -> lum_below (v, v, v) thr = false)
  /\ lum_below (5, 5, 5) 5 = true.
Proof.
  intros Hv Ht.
  assert (H := range_forallb _ _ _ gray_luminance_all v ltac:(lia)).
  unfold gray_luminance_ordered in H. cbv zeta in H.
  assert (H' := range_forallb _ _ _ H thr ltac:(lia)). cbv beta in H'.
  apply andb_prop in H'. destruct H' as [H1 H2].
  unfold lum_below. split; [|split].
  - intros Hlt. destruct (Z.ltb_spec v thr); [exact H1 | lia].
  - intros Hlt. destruct (Z.ltb_spec thr v); [|lia].
    now apply negb_true_iff in H2.
  - vm_compute. reflexivity.
Qed.

Lemma lum_below_gray_witness :
  (100 < 145 -> lum_below (100, 100, 100) 145 = true)
  /\ (145 < 100 -> lum_below (100, 100, 100) 145 = false)
  /\ lum_below (5, 5, 5) 5 = true.
Proof. apply (lum_below_gray 100 145); lia. Defined.

(** ** Run lengths *)

Lemma count_true_cons (b : bool) (row : list bool) :
  count_true (b :: row) = (if b then 1 else 0) + count_true row.
Proof. unfold count_true, lenZ. cbn [filter]. destruct b; cbn [length]; lia. Qed.

Lemma count_true_nonneg (row : list bool) : 0 <= count_true row.
Proof. unfold count_true, lenZ. lia. Qed.

Lemma sumZ_nonneg_ge1 (l : list Z) : Forall (fun r => 1 <= r) l -> 0 <= sumZ l.
Proof. induction 1; unfold sumZ in *; cbn [fold_right]; lia. Qed.

Lemma run_loop_spec (vs : list bool) (cur : bool) (cnt : Z) (runs : list Z) :
  1 <= cnt ->
  exists R,
    run_loop vs cur cnt runs = runs ++ R
    /\ Forall (fun r => 1 <= r) R
    /\ sumZ R = (if cur then cnt else 0) + count_true vs.
Proof.
  revert cur cnt runs. induction vs as [|v vs IH]; intros cur cnt runs Hc;
    cbn [run_loop].
  - destruct cur.
    + exists [cnt]. split; [reflexivity|]. split.
      * constructor; [lia | constructor].
      * unfold sumZ, count_true, lenZ. cbn. lia.
    + exists []. rewrite app_nil_r. split; [reflexivity|]. split; [constructor|].
      reflexivity.
  - rewrite count_true_cons. destruct (Bool.eqb v cur) eqn:E.
    + apply eqb_prop in E. subst v.
      destruct (IH cur (cnt + 1) runs ltac:(lia)) as [R [HR [HF HS]]].
      exists R. split; [exact HR|]. split; [exact HF|].
      rewrite HS. destruct cur; lia.
    + destruct (IH v 1 (if cur then runs ++ [cnt] else runs) ltac:(lia))
        as [R [HR [HF HS]]].
      destruct cur; destruct v; try discriminate E.
      * exists (cnt :: R). rewrite HR, <- app_assoc. split; [reflexivity|]. split.
        -- constructor; [lia | exact HF].
        -- unfold sumZ in *. cbn [fold_right]. lia.
      * exists R. split; [exact HR|]. split; [exact HF | lia].
Qed.

(** X8: the run lengths taken from a row of the mask are all at least 1 and
    add up to the number of dark pixels of the row; there is no run exactly
    when the row has no dark pixel (the case reported as
    ModuleSizeUnavailable). *)
Theorem dark_runs_spec (row : list bool) :
  Forall (fun r => 1 <= r) (dark_runs row)
  /\ sumZ (dark_runs row) = count_true row
  /\ (dark_runs row = [] <-> count_true row = 0).
Proof.
  assert (H : Forall (fun r => 1 <= r) (dark_runs row)
              /\ sumZ (dark_runs row) = count_true row).
  { destruct row as [|cur rest]; cbn [dark_runs].
    - split; [constructor | reflexivity].
    - destruct (run_loop_spec rest cur 1 [] ltac:(lia)) as [R [HR [HF HS]]].
      rewrite HR. cbn [app]. split; [exact HF|].
      rewrite HS, count_true_cons. destruct cur; lia. }
  destruct H as [HF HS]. split; [exact HF|]. split; [exact HS|].
  rewrite <- HS. split.
  - intros ->. reflexivity.
  - intros H0. destruct (dark_runs row) as [|r R]; [reflexivity|].
    exfalso. inversion HF as [|? ? Hr HR]; subst.
    apply sumZ_nonneg_ge1 in HR. unfold sumZ in *. cbn [fold_right] in H0. lia.
Qed.

(** ** The mask and its bounding box *)

Lemma row_where_length (y x : Z) (row : list bool) :
  lenZ (row_where y x row) = count_true row.
Proof.
  revert x. induction row as [|b row IH]; intros x; cbn [row_where].
  - reflexivity.
  - rewrite count_true_cons, <- (IH (x + 1)). unfold lenZ. rewrite length_app.
    destruct b; cbn [length]; lia.
Qed.

Lemma mask_count_cons (row : list bool) (m : list (list bool)) :
  mask_count (row :: m) = count_true row + mask_count m.
Proof.
  unfold mask_count, count_true, lenZ. cbn [concat].
  rewrite filter_app, length_app. lia.
Qed.

Lemma mask_where_length (y : Z) (m : list (list bool)) :
  lenZ (mask_where y m) = mask_count m.
Proof.
  revert y. induction m as [|row m IH]; intros y; cbn [mask_where].
  - reflexivity.
  - rewrite mask_count_cons, <- (IH (y + 1)), <- (row_where_length y 0 row).
    unfold lenZ. rewrite length_app. lia.
Qed.

Lemma row_where_in (y x y' x' : Z) (row : list bool) :
  In (y', x') (row_where y x row)
  <-> y' = y /\ x <= x' /\ nth_error row (Z.to_nat (x' - x)) = Some true.
Proof.
  revert x. induction row as [|b row IH]; intros x; cbn [row_where].
  - split; [intros [] | intros [_ [_ H]]]. destruct (Z.to_nat (x' - x)); discriminate H.
  - rewrite in_app_iff, IH. split.
    + intros [H|[-> [Hx Hn]]].
      * destruct b; [|destruct H]. destruct H as [H|[]]. injection H as <- <-.
        replace (x - x) with 0 by lia. repeat split; lia.
      * split; [reflexivity|]. split; [lia|].
        replace (Z.to_nat (x' - x)) with (S (Z.to_nat (x' - (x + 1)))) by lia.
        exact Hn.
    + intros [-> [Hx Hn]]. destruct (Z.eq_dec x' x) as [->|Hne].
      * left. replace (x - x) with 0 in Hn by lia. cbn in Hn. injection Hn as ->.
        now left.
      * right. split; [reflexivity|]. split; [lia|].
        replace (Z.to_nat (x' - x)) with (S (Z.to_nat (x' - (x + 1)))) in Hn by lia.
        exact Hn.
Qed.

Lemma mask_where_in (y y' x' : Z) (m : list (list bool)) :
  In (y', x') (mask_where y m)
  <-> y <= y' /\ 0 <= x'
      /\ exists row, nth_error m (Z.to_nat (y' - y)) = Some row
                     /\ nth_error row (Z.to_nat x') = Some true.
Proof.
  revert y. induction m as [|row m IH]; intros y; cbn [mask_where].
  - split; [intros [] | intros [_ [_ [r [H _]]]]].
    destruct (Z.to_nat (y' - y)); discriminate H.
  - rewrite in_app_iff, row_where_in, IH. split.
    + intros [[-> [Hx Hn]]|[Hy [Hx [r [Hr Hn]]]]].
      * split; [lia|]. split; [exact Hx|]. exists row.
        replace (y - y) with 0 by lia. rewrite Z.sub_0_r in Hn. now split.
      * split; [lia|]. split; [exact Hx|]. exists r.
        replace (Z.to_nat (y' - y)) with (S (Z.to_nat (y' - (y + 1)))) by lia.
        now split.
    + intros [Hy [Hx [r [Hr Hn]]]]. destruct (Z.eq_dec y' y) as [->|Hne].
      * left. replace (y - y) with 0 in Hr by lia. cbn in Hr. injection Hr as ->.
        rewrite Z.sub_0_r. repeat split; assumption.
      * right. split; [lia|]. split; [exact Hx|]. exists r.
        replace (Z.to_nat (y' - y)) with (S (Z.to_nat (y' - (y + 1)))) in Hr by lia.
        now split.
Qed.

Lemma fold_min_spec (r : list Z) (x : Z) :
  (fold_left Z.min r x = x \/ In (fold_left Z.min r x) r)
  /\ fold_left Z.min r x <= x
  /\ Forall (fun z => fold_left Z.min r x <= z) r.
Proof.
  revert x. induction r as [|a r IH]; intros x; cbn [fold_left].
  - repeat split; [now left | lia | constructor].
  - destruct (IH (Z.min x a)) as [H1 [H2 H3]]. split; [|split].
    + destruct H1 as [H1|H1]; [|right; now right].
      rewrite H1. destruct (Z.min_spec x a) as [[_ ->]|[_ ->]]; [now left|].
      right. now left.
    + lia.
    + constructor; [lia | exact H3].
Qed.

Lemma fold_max_spec (r : list Z) (x : Z) :
  (fold_left Z.max r x = x \/ In (fold_left Z.max r x) r)
  /\ x <= fold_left Z.max r x
  /\ Forall (fun z => z <= fold_left Z.max r x) r.
Proof.
  revert x. induction r as [|a r IH]; intros x; cbn [fold_left].
  - repeat split; [now left | lia | constructor].
  - destruct (IH (Z.max x a)) as [H1 [H2 H3]]. split; [|split].
    + destruct H1 as [H1|H1]; [|right; now right].
      rewrite H1. destruct (Z.max_spec x a) as [[_ ->]|[_ ->]]; [|now left].
      right. now left.
    + lia.
    + constructor; [lia | exact H3].
Qed.

Lemma list_min_spec (d : Z) (l : list Z) :
  l <> [] -> In (list_min d l) l /\ Forall (fun z => list_min d l <= z) l.
Proof.
  destruct l as [|x r]; [congruence|]. intros _. cbn [list_min].
  destruct (fold_min_spec r x) as [H1 [H2 H3]]. split.
  - destruct H1 as [->|H1]; [now left | now right].
  - constructor; assumption.
Qed.

Lemma list_max_spec (d : Z) (l : list Z) :
  l <> [] -> In (list_max d l) l /\ Forall (fun z => z <= list_max d l) l.
Proof.
  destruct l as [|x r]; [congruence|]. intros _. cbn [list_max].
  destruct (fold_max_spec r x) as [H1 [H2 H3]]. split.
  - destruct H1 as [->|H1]; [now left | now right].
  - constructor; assumption.
Qed.

(** The mask the detector chooses is never empty: the retry with a widened
    threshold is not entered. *)
Lemma chosen_mask_not_empty (gray : GrayArray) (t : Z) :
  (mask_count (mask_lt gray t) =? 0) && (mask_count (mask_gt gray t) =? 0) = false ->
  (lenZ (mask_where 0
           (if (mask_count (mask_lt gray t) >=? mask_count (mask_gt gray t))
               && (mask_count (mask_lt gray t) >? 0)
            then mask_lt gray t else mask_gt gray t)) =? 0) = false.
Proof.
  intros Hf. rewrite mask_where_length.
  assert (H1 := mask_count_nonneg (mask_lt gray t)).
  assert (H2 := mask_count_nonneg (mask_gt gray t)).
  apply andb_false_iff in Hf. apply Z.eqb_neq.
  rewrite Z.geb_leb, Z.gtb_ltb.
  destruct (Z.leb_spec (mask_count (mask_gt gray t)) (mask_count (mask_lt gray t)));
    destruct (Z.ltb_spec 0 (mask_count (mask_lt gray t))); cbn [andb];
    destruct Hf as [Hf|Hf]; apply Z.eqb_neq in Hf; lia.
Qed.

(** ** Geometry detection, continued *)

Ltac enter_detect gray thr :=
  unfold detect_qr_geometry; fold (chosen_threshold gray thr);
  set (t := chosen_threshold gray thr); cbv zeta;
  destruct ((mask_count (mask_lt gray t) =? 0) && (mask_count (mask_gt gray t) =? 0))
    eqn:Eflat;
  [ | rewrite (chosen_mask_not_empty gray t Eflat); cbv beta iota;
      unfold bind at 1; cbv beta iota ].

(** X9: the retry with a widened threshold is dead code: the detector never
    fails with NoDarkModulesDetected (nor with the override's InvalidInput);
    its failures are NoModulesDetected, ModuleSizeUnavailable,
    InvalidModuleCount or a division by zero. *)
Theorem detect_qr_geometry_failures (W H : Z) (gray : GrayArray) (thr : option Z) :
  detect_qr_geometry W H gray thr <> Err NoDarkModulesDetected
  /\ detect_qr_geometry W H gray thr <> Err InvalidInput
  /\ forall e, detect_qr_geometry W H gray thr = Err e ->
       e = NoModulesDetected \/ e = ModuleSizeUnavailable
       \/ e = InvalidModuleCount \/ e = ZeroDivisionError.
Proof.
  assert (Hall : forall e, detect_qr_geometry W H gray thr = Err e ->
            e = NoModulesDetected \/ e = ModuleSizeUnavailable
            \/ e = InvalidModuleCount \/ e = ZeroDivisionError).
  { intros e. enter_detect gray thr.
    - intros Hd. injection Hd as <-. now left.
    - intros Hd. invert_result Hd;
        try (injection Hd as <-);
        repeat match goal with
               | H : count_along _ _ = Err _ |- _ => apply count_along_err in H
               | H : merge_counts _ _ = Err _ |- _ => apply merge_counts_err in H
               | H : float_truediv _ _ = Err _ |- _ => apply float_truediv_err in H
               end;
        subst; tauto. }
  split; [|split; [|exact Hall]].
  - intros Hd. destruct (Hall _ Hd) as [E|[E|[E|E]]]; discriminate E.
  - intros Hd. destruct (Hall _ Hd) as [E|[E|[E|E]]]; discriminate E.
Qed.

Lemma detect_qr_geometry_box (W H : Z) (gray : GrayArray) (thr : option Z)
  (g : QRGeometry) :
  detect_qr_geometry W H gray thr = Ok g ->
  mask_where 0 (chosen_mask gray thr) <> []
  /\ content_box g
     = (list_min 0 (map snd (mask_where 0 (chosen_mask gray thr))),
        list_min 0 (map fst (mask_where 0 (chosen_mask gray thr))),
        list_max 0 (map snd (mask_where 0 (chosen_mask gray thr))),
        list_max 0 (map fst (mask_where 0 (chosen_mask gray thr)))).
Proof.
  unfold chosen_mask, chosen_polarity, count_lt, count_gt.
  enter_detect gray thr; [discriminate|].
  intros Hd. split.
  - intros Hnil. assert (Hne := chosen_mask_not_empty gray t Eflat).
    rewrite Hnil in Hne. discriminate Hne.
  - invert_result Hd.
    apply (f_equal (fun r => match r with
                             | Ok g' => content_box g'
                             | Err _ => content_box g
                             end)) in Hd.
    cbv beta iota in Hd. cbn [content_box] in Hd. symmetry. exact Hd.
Qed.

Lemma mask_where_map (f : Z -> bool) (gray : GrayArray) (x y : Z) :
  In (y, x) (mask_where 0 (map (map f) gray))
  <-> 0 <= x /\ 0 <= y /\ exists v, gray_at gray x y = Some v /\ f v = true.
Proof.
  rewrite mask_where_in, Z.sub_0_r. unfold gray_at. rewrite nth_error_map.
  split.
  - intros [Hy [Hx [row [Hr Hn]]]]. split; [exact Hx|]. split; [exact Hy|].
    destruct (nth_error gray (Z.to_nat y)) as [grow|]; [|discriminate Hr].
    cbn in Hr. injection Hr as <-. rewrite nth_error_map in Hn.
    destruct (nth_error grow (Z.to_nat x)) as [v|]; [|discriminate Hn].
    cbn in Hn. injection Hn as Hn. exists v. now split.
  - intros [Hx [Hy [v [Hv Hf]]]]. split; [exact Hy|]. split; [exact Hx|].
    destruct (nth_error gray (Z.to_nat y)) as [grow|]; [|discriminate Hv].
    exists (map f grow). split; [reflexivity|]. rewrite nth_error_map, Hv.
    cbn. now rewrite Hf.
Qed.

Lemma gray_at_in_image (W H : Z) (gray : GrayArray) (x y v : Z) :
  lenZ gray = H -> Forall (fun row => lenZ row = W) gray ->
  0 <= x -> 0 <= y -> gray_at gray x y = Some v -> x < W /\ y < H.
Proof.
  intros HH HW Hx Hy. unfold gray_at.
  destruct (nth_error gray (Z.to_nat y)) as [row|] eqn:Er; [|discriminate].
  intros Hv.
  assert (Hy' : (Z.to_nat y < length gray)%nat)
    by (apply nth_error_Some; congruence).
  assert (Hx' : (Z.to_nat x < length row)%nat)
    by (apply nth_error_Some; congruence).
  apply nth_error_In in Er. rewrite Forall_forall in HW. specialize (HW row Er).
  unfold lenZ in *. lia.
Qed.

(** X10: for an array of [H] rows of [W] pixels, the content box of a
    detected geometry is the bounding box of the dark pixels (dark for the
    returned threshold and polarity): it lies inside the image with
    [left <= right] and [top <= bottom], contains every dark pixel, and each
    of its four sides touches one. *)
Theorem content_box_is_bounding_box (W H : Z) (gray : GrayArray) (thr : option Z)
  (g : QRGeometry) :
  lenZ gray = H -> Forall (fun row => lenZ row = W) gray ->
  detect_qr_geometry W H gray thr = Ok g ->
  exists x_left y_top x_right y_bottom,
    content_box g = (x_left, y_top, x_right, y_bottom)
    /\ (0 <= x_left <= x_right /\ x_right < W)
    /\ (0 <= y_top <= y_bottom /\ y_bottom < H)
    /\ (forall x y, dark_pixel gray g x y ->
                    x_left <= x <= x_right /\ y_top <= y <= y_bottom)
    /\ ((exists y, dark_pixel gray g x_left y) /\ (exists y, dark_pixel gray g x_right y))
    /\ ((exists x, dark_pixel gray g x y_top) /\ (exists x, dark_pixel gray g x y_bottom)).
Proof.
  intros HH HW Hd.
  destruct (detect_qr_geometry_box _ _ _ _ _ Hd) as [Hne Hbox].
  destruct (detect_qr_geometry_ok _ _ _ _ _ Hd) as [_ [_ [_ [Hthr [Hpol _]]]]].
  fold (chosen_polarity gray thr) in Hpol.
  set (yxs := mask_where 0 (chosen_mask gray thr)) in *.
  assert (Hin : forall x y, In (y, x) yxs <-> dark_pixel gray g x y).
  { intros x y. unfold yxs, chosen_mask, dark_pixel, is_dark_value.
    rewrite Hthr, Hpol. destruct (chosen_polarity gray thr); apply mask_where_map. }
  assert (Hxs : map snd yxs <> []) by (destruct yxs; [congruence | discriminate]).
  assert (Hys : map fst yxs <> []) by (destruct yxs; [congruence | discriminate]).
  destruct (list_min_spec 0 _ Hxs) as [Hl1 Hl2].
  destruct (list_max_spec 0 _ Hxs) as [Hr1 Hr2].
  destruct (list_min_spec 0 _ Hys) as [Ht1 Ht2].
  destruct (list_max_spec 0 _ Hys) as [Hb1 Hb2].
  set (x_left := list_min 0 (map snd yxs)) in *.
  set (x_right := list_max 0 (map snd yxs)) in *.
  set (y_top := list_min 0 (map fst yxs)) in *.
  set (y_bottom := list_max 0 (map fst yxs)) in *.
  rewrite Forall_forall in Hl2, Hr2, Ht2, Hb2.
  assert (Hcol : forall x, In x (map snd yxs) -> exists y, dark_pixel gray g x y).
  { intros x Hx. apply in_map_iff in Hx. destruct Hx as [[y x'] [E Hyx]].
    cbn in E. subst x'. exists y. now apply Hin. }
  assert (Hrow : forall y, In y (map fst yxs) -> exists x, dark_pixel gray g x y).
  { intros y Hy. apply in_map_iff in Hy. destruct Hy as [[y' x] [E Hyx]].
    cbn in E. subst y'. exists x. now apply Hin. }
  assert (Hbound : forall x y, dark_pixel gray g x y ->
                     (0 <= x /\ x < W) /\ (0 <= y /\ y < H)).
  { intros x y [Hx [Hy [v [Hv _]]]].
    destruct (gray_at_in_image W H gray x y v HH HW Hx Hy Hv). lia. }
  assert (Hcont : forall x y, dark_pixel gray g x y ->
                    x_left <= x <= x_right /\ y_top <= y <= y_bottom).
  { intros x y Hdp. apply Hin in Hdp.
    assert (Hx : In x (map snd yxs)) by (apply in_map_iff; exists (y, x); now split).
    assert (Hy : In y (map fst yxs)) by (apply in_map_iff; exists (y, x); now split).
    specialize (Hl2 x Hx). specialize (Hr2 x Hx).
    specialize (Ht2 y Hy). specialize (Hb2 y Hy). lia. }
  destruct (Hcol _ Hl1) as [yl Hdl]. destruct (Hcol _ Hr1) as [yr Hdr].
  destruct (Hrow _ Ht1) as [xt Hdt]. destruct (Hrow _ Hb1) as [xb Hdb].
  exists x_left, y_top, x_right, y_bottom.
  split; [exact Hbox|].
  assert (B1 := Hbound _ _ Hdl). assert (B2 := Hbound _ _ Hdr).
  assert (B3 := Hbound _ _ Hdt). assert (B4 := Hbound _ _ Hdb).
  assert (C1 := Hcont _ _ Hdl). assert (C2 := Hcont _ _ Hdt).
  split; [lia|]. split; [lia|]. split; [exact Hcont|].
  split; split; eexists; eassumption.
Qed.

Lemma content_box_is_bounding_box_witness :
  exists x_left y_top x_right y_bottom,
    content_box geo_3x3 = (x_left, y_top, x_right, y_bottom)
    /\ (0 <= x_left <= x_right /\ x_right < 3)
    /\ (0 <= y_top <= y_bottom /\ y_bottom < 3)
    /\ (forall x y, dark_pixel gray_3x3 geo_3x3 x y ->
                    x_left <= x <= x_right /\ y_top <= y <= y_bottom)
    /\ ((exists y, dark_pixel gray_3x3 geo_3x3 x_left y)
        /\ (exists y, dark_pixel gray_3x3 geo_3x3 x_right y))
    /\ ((exists x, dark_pixel gray_3x3 geo_3x3 x y_top)
        /\ (exists x, dark_pixel gray_3x3 geo_3x3 x y_bottom)).
Proof.
  apply (content_box_is_bounding_box 3 3 gray_3x3 (Some 128) geo_3x3).
  - reflexivity.
  - repeat constructor.
  - vm_compute. reflexivity.
Defined.

(** ** Otsu's threshold on an image *)

Lemma byte_arrayb_spec (gray : GrayArray) : byte_arrayb gray = true -> byte_array gray.
Proof.
  unfold byte_arrayb, byte_array. rewrite forallb_forall, Forall_forall.
  intros H v Hv. specialize (H v Hv). apply andb_prop in H.
  destruct H as [H1 H2]. apply Z.leb_le in H1. apply Z.ltb_lt in H2. lia.
Qed.

Lemma sumZ_counts_interval (l : list Z) (n : nat) (lo : Z) :
  sumZ (map (fun v => count_eq v l) (range_from lo n))
  = lenZ (filter (fun x => (lo <=? x) && (x <? lo + Z.of_nat n)) l).
Proof.
  induction l as [|x l IH].
  - unfold count_eq, lenZ. cbn [filter length].
    induction (range_from lo n) as [|v r IHr]; unfold sumZ in *; cbn in *; lia.
  - rewrite (map_ext _ (fun v => (if x =? v then 1 else 0) + count_eq v l))
      by (intros v; apply count_eq_cons).
    rewrite sumZ_map_add, sumZ_indicator, IH. cbn [filter].
    destruct ((lo <=? x) && (x <? lo + Z.of_nat n)); unfold lenZ; cbn [length]; lia.
Qed.

Lemma firstn_range_from (k n : nat) (lo : Z) :
  firstn k (range_from lo n) = range_from lo (Nat.min k n).
Proof.
  revert n lo. induction k as [|k IH]; intros n lo; [reflexivity|].
  destruct n as [|n]; [reflexivity|]. cbn [range_from firstn Nat.min].
  now rewrite IH.
Qed.

Lemma filter_length_zero {A : Type} (f : A -> bool) (l : list A) :
  lenZ (filter f l) = 0 <-> forall x, In x l -> f x = false.
Proof.
  unfold lenZ. induction l as [|a l IH]; cbn [filter].
  - split; [intros _ x [] | reflexivity].
  - destruct (f a) eqn:E; cbn [length].
    + split; [lia|]. intros H. specialize (H a (or_introl eq_refl)). congruence.
    + rewrite IH. split.
      * intros H x [<-|Hx]; [exact E | now apply H].
      * intros H x Hx. apply H. now right.
Qed.

Lemma filter_length_pos {A : Type} (f : A -> bool) (l : list A) :
  lenZ (filter f l) <> 0 <-> exists x, In x l /\ f x = true.
Proof.
  split.
  - intros H. induction l as [|a l IH]; [exfalso; apply H; reflexivity|].
    cbn [filter] in H. destruct (f a) eqn:E.
    + exists a. split; [now left | exact E].
    + destruct (IH H) as [x [Hx Hf]]. exists x. split; [now right | exact Hf].
  - intros [x [Hx Hf]] H0. rewrite filter_length_zero in H0.
    specialize (H0 x Hx). congruence.
Qed.

Lemma filter_length_le {A : Type} (f : A -> bool) (l : list A) :
  lenZ (filter f l) <= lenZ l.
Proof.
  unfold lenZ. induction l as [|a l IH]; cbn [filter length]; [lia|].
  destruct (f a); cbn [length]; lia.
Qed.

Lemma filter_length_split {A : Type} (f : A -> bool) (l : list A) :
  lenZ (filter f l) + lenZ (filter (fun x => negb (f x)) l) = lenZ l.
Proof.
  unfold lenZ. induction l as [|a l IH]; cbn [filter length]; [lia|].
  destruct (f a); cbn [negb length]; lia.
Qed.

(** The weight below [t] in the histogram of a byte array is the number of
    pixels of value at most [t]. *)
Lemma w_below_histogram (gray : GrayArray) (t : Z) :
  byte_array gray -> 0 <= t < 256 ->
  w_below (histogram gray) t = lenZ (filter (fun x => x <=? t) (concat gray))
  /\ sumZ (histogram gray) = lenZ (concat gray).
Proof.
  intros Hb Ht. split.
  - unfold w_below, histogram, range. rewrite firstn_map, firstn_range_from.
    rewrite sumZ_counts_interval. f_equal.
    apply filter_ext_in. intros x Hx. unfold byte_array in Hb.
    rewrite Forall_forall in Hb. specialize (Hb x Hx).
    destruct (Z.leb_spec 0 x); destruct (Z.leb_spec x t);
      destruct (Z.ltb_spec x (0 + Z.of_nat (Nat.min (Z.to_nat (t + 1)) (Z.to_nat (256 - 0)))));
      cbn [andb]; try reflexivity; lia.
  - unfold histogram, range. apply sumZ_counts.
    unfold byte_array in Hb. rewrite Forall_forall in *. intros x Hx.
    specialize (Hb x Hx). lia.
Qed.

Lemma candidate_splits (gray : GrayArray) (t : Z) :
  byte_array gray ->
  candidate (histogram gray) t -> 0 <= t <= 254 /\ splits gray t.
Proof.
  intros Hb [Hr [H1 H2]].
  assert (Hlen : lenZ (histogram gray) = 256).
  { unfold histogram, lenZ. rewrite length_map, length_range. reflexivity. }
  rewrite Hlen in Hr.
  destruct (w_below_histogram gray t Hb Hr) as [Hw Hs]. rewrite Hw in H1, H2.
  rewrite Hs in H2.
  assert (Hsplit := filter_length_split (fun x => x <=? t) (concat gray)).
  cbv beta in Hsplit.
  assert (H3 : lenZ (filter (fun x => negb (x <=? t)) (concat gray)) <> 0) by lia.
  apply filter_length_pos in H1. apply filter_length_pos in H3.
  destruct H1 as [v [Hv Hle]]. destruct H3 as [v' [Hv' Hgt]].
  apply Z.leb_le in Hle. apply negb_true_iff, Z.leb_gt in Hgt.
  assert (Hv255 : v' < 256).
  { unfold byte_array in Hb. rewrite Forall_forall in Hb. apply Hb, Hv'. }
  split; [lia|]. split; [exists v | exists v']; now split.
Qed.

Lemma otsu_scan_post (hist : list Z) :
  Forall (fun x => 0 <= x) hist -> otsu_post hist (otsu_scan hist (sumZ hist)).
Proof.
  intros Hnn. unfold otsu_scan. change 0 with (lenZ (@nil Z)) at 2.
  apply otsu_loop_post; [exact Hnn | reflexivity | reflexivity | reflexivity | ].
  split.
  - intros t [Hr _] Hlt. unfold lenZ in Hlt. cbn in Hlt. lia.
  - left. split; reflexivity.
Qed.

Lemma histogram_nonneg (gray : GrayArray) : Forall (fun x => 0 <= x) (histogram gray).
Proof.
  apply Forall_forall. intros x Hx. unfold histogram in Hx. apply in_map_iff in Hx.
  destruct Hx as [v [<- _]]. unfold count_eq, lenZ. lia.
Qed.

Lemma otsu_threshold_cases (gray : GrayArray) :
  byte_array gray ->
  otsu_threshold gray = 128
  \/ (0 <= otsu_threshold gray <= 254 /\ splits gray (otsu_threshold gray)).
Proof.
  intros Hb.
  assert (Hs : sumZ (histogram gray) = lenZ (concat gray)).
  { unfold histogram, range. apply sumZ_counts. unfold byte_array in Hb.
    rewrite Forall_forall in *. intros x Hx. specialize (Hb x Hx). lia. }
  unfold otsu_threshold, otsu_hist. rewrite <- Hs.
  destruct (otsu_scan_post (histogram gray) (histogram_nonneg gray)) as [_ [[Hn _]|[Hc _]]].
  - now left.
  - right. apply candidate_splits; assumption.
Qed.

(** X11: on an array of bytes Otsu's threshold is either the fallback 128 or
    a level between 0 and 254 that splits the image: some pixel is at most
    the threshold and some pixel is above it. *)
Theorem otsu_threshold_splits (gray : GrayArray) :
  byte_arrayb gray = true ->
  otsu_threshold gray = 128
  \/ (0 <= otsu_threshold gray <= 254 /\ splits gray (otsu_threshold gray)).
Proof. intros Hb. apply otsu_threshold_cases, byte_arrayb_spec, Hb. Qed.

Lemma otsu_threshold_splits_witness :
  otsu_threshold gray_3x3 = 128
  \/ (0 <= otsu_threshold gray_3x3 <= 254 /\ splits gray_3x3 (otsu_threshold gray_3x3)).
Proof. apply (otsu_threshold_splits gray_3x3). reflexivity. Defined.

Lemma uniform_gets_fallback (gray : GrayArray) (c : Z) :
  0 <= c <= 255 -> (forall v, In v (concat gray) -> v = c) ->
  otsu_threshold gray = 128.
Proof.
  intros Hc Hu.
  assert (Hb : byte_array gray).
  { apply Forall_forall. intros v Hv. rewrite (Hu v Hv). lia. }
  destruct (otsu_threshold_cases gray Hb) as [H|[_ [[v [Hv Hle]] [v' [Hv' Hgt]]]]];
    [exact H|].
  rewrite (Hu v Hv) in Hle. rewrite (Hu v' Hv') in Hgt. lia.
Qed.

(** X12: a uniform image, all pixels at one byte level, gets the fallback
    threshold 128 whatever the level: the loop never assigns although the
    histogram is not empty. *)
Theorem otsu_threshold_uniform (gray : GrayArray) (c : Z) :
  0 <= c <= 255 -> (forall v, In v (concat gray) -> v = c) ->
  otsu_threshold gray = 128.
Proof. apply uniform_gets_fallback. Qed.

Lemma otsu_threshold_uniform_witness : otsu_threshold [[7; 7]; [7; 7]] = 128.
Proof.
  apply (otsu_threshold_uniform [[7; 7]; [7; 7]] 7); [lia|].
  intros v Hv. cbn in Hv. intuition congruence.
Defined.

Lemma filter_map_length {A : Type} (f : A -> bool) (l : list A) :
  lenZ (filter (fun b => b) (map f l)) = lenZ (filter f l).
Proof.
  unfold lenZ. induction l as [|a l IH]; cbn [map filter]; [reflexivity|].
  destruct (f a); cbn [length]; lia.
Qed.

Lemma mask_count_map (f : Z -> bool) (gray : GrayArray) :
  mask_count (map (map f) gray) = lenZ (filter f (concat gray)).
Proof. unfold mask_count. now rewrite <- concat_map, filter_map_length. Qed.

Lemma flat_iff_uniform (gray : GrayArray) (t : Z) :
  mask_count (mask_lt gray t) = 0 /\ mask_count (mask_gt gray t) = 0
  <-> forall v, In v (concat gray) -> v = t.
Proof.
  unfold mask_lt, mask_gt. rewrite !mask_count_map, !filter_length_zero. split.
  - intros [H1 H2] v Hv. specialize (H1 v Hv). specialize (H2 v Hv).
    cbv beta in H1, H2. rewrite Z.gtb_ltb in H2.
    apply Z.ltb_ge in H1. apply Z.ltb_ge in H2. lia.
  - intros H. split; intros v Hv; rewrite (H v Hv);
      [apply Z.ltb_irrefl | rewrite Z.gtb_ltb; apply Z.ltb_irrefl].
Qed.

(** X13: the detector reports NoModulesDetected exactly when every pixel
    equals the threshold it works with; with the automatic threshold, on an
    array of bytes, that is exactly when every pixel is 128 (an empty array
    included): any other uniform image goes on to geometry estimation. *)
Theorem no_modules_detected_iff (W H : Z) (gray : GrayArray) (thr : option Z) :
  (detect_qr_geometry W H gray thr = Err NoModulesDetected
   <-> forall v, In v (concat gray) -> v = chosen_threshold gray thr)
  /\ (byte_array gray ->
      (detect_qr_geometry W H gray None = Err NoModulesDetected
       <-> forall v, In v (concat gray) -> v = 128)).
Proof.
  assert (Hgen : forall thr',
            detect_qr_geometry W H gray thr' = Err NoModulesDetected
            <-> forall v, In v (concat gray) -> v = chosen_threshold gray thr').
  { intros thr'. rewrite detect_qr_geometry_flat. apply flat_iff_uniform. }
  split; [apply Hgen|].
  intros Hb. rewrite Hgen. cbn [chosen_threshold]. split.
  - intros Hu v Hv.
    destruct (otsu_threshold_cases gray Hb) as [E|[_ [_ [v' [Hv' Hgt]]]]].
    + rewrite <- E. now apply Hu.
    + rewrite (Hu v' Hv') in Hgt. lia.
  - intros Hu v Hv. rewrite (uniform_gets_fallback gray 128 ltac:(lia) Hu).
    now apply Hu.
Qed.

(** ** The overlay *)









(** ** The colour picker's answers *)

Lemma search_neighbors_some (logo : Image) (logo_w logo_h total R C : Z)
  (want_dark : bool) (thr : Z) (offs : list (Z * Z * Z)) (p : RGBA) :
  1 <= logo_w -> 1 <= logo_h ->
  search_neighbors logo logo_w logo_h total R C want_dark thr offs = Ok (Some p) ->
  neighbor_ok thr want_dark p = true
  /\ exists x y, (0 <= x < logo_w /\ 0 <= y < logo_h) /\ p = getpixel logo x y.
Proof.
  intros Hw Hh. induction offs as [|[[dr dc] d2] rest IH]; cbn [search_neighbors].
  - discriminate.
  - destruct (negb _); [exact IH|].
    destruct (center_xy total logo_w logo_h (R + dr) (C + dc)) as [[nx ny]|e] eqn:E;
      unfold bind; [|discriminate].
    destruct (neighbor_ok thr want_dark (getpixel logo nx ny)) eqn:Hok; [|exact IH].
    intros Hp. injection Hp as <-. split; [exact Hok|].
    exists nx, ny. split; [|reflexivity].
    exact (center_xy_in_bounds _ _ _ _ _ _ _ Hw Hh E).
Qed.

Lemma neighbor_ok_is_dark (thr : Z) (want_dark : bool) (p : RGBA) :
  neighbor_ok thr want_dark p = true -> is_dark_rgba thr p = want_dark.
Proof.
  destruct p as [[[r g] b] a]. unfold neighbor_ok, is_dark_rgba.
  cbn [rgb_of alpha_of]. intros H. apply andb_prop in H. destruct H as [H1 H2].
  apply eqb_prop in H1. rewrite Z.geb_leb in H2. apply Z.leb_le in H2.
  destruct (Z.ltb_spec a 10); [lia | exact H1].
Qed.

(** X16: a pixel returned by [pick_logo_color] is a pixel of the logo at
    coordinates inside the logo, and it is classified as the wanted
    darkness (for a logo that is at least one pixel wide and high). *)
Theorem picked_pixel_is_wanted (logo : Image)
  (logo_w logo_h total qz row col : Z) (want_dark : bool) (thr radius : Z) (p : RGBA) :
  1 <= logo_w -> 1 <= logo_h ->
  pick_logo_color logo logo_w logo_h total qz row col want_dark thr radius = Ok (Some p) ->
  is_dark_rgba thr p = want_dark
  /\ exists x y, (0 <= x < logo_w /\ 0 <= y < logo_h) /\ p = getpixel logo x y.
Proof.
  intros Hw Hh. unfold pick_logo_color.
  destruct (center_xy total logo_w logo_h (row + qz) (col + qz)) as [[cx cy]|e] eqn:E;
    unfold bind; [|discriminate].
  destruct (Bool.eqb (is_dark_rgba thr (getpixel logo cx cy)) want_dark) eqn:Hc.
  - intros Hp. injection Hp as <-. split; [apply eqb_prop, Hc|].
    exists cx, cy. split; [|reflexivity].
    exact (center_xy_in_bounds _ _ _ _ _ _ _ Hw Hh E).
  - intros Hs. apply (search_neighbors_some _ _ _ _ _ _ _ _ _ _ Hw Hh) in Hs.
    destruct Hs as [Hok Hxy]. split; [apply neighbor_ok_is_dark, Hok | exact Hxy].
Qed.

Lemma picked_pixel_is_wanted_witness :
  is_dark_rgba 145 (0, 0, 255, 255) = true
  /\ exists x y, (0 <= x < 4 /\ 0 <= y < 4) /\ (0, 0, 255, 255) = getpixel blue_4x4 x y.
Proof.
  apply (picked_pixel_is_wanted blue_4x4 4 4 2 0 0 0 true 145 2 (0, 0, 255, 255));
    [lia | lia | vm_compute; reflexivity].
Defined.

(** ** A fully transparent logo *)

Lemma find_all_false {A : Type} (f : A -> bool) (l : list A) :
  (forall x, In x l -> f x = false) -> find f l = None.
Proof.
  induction l as [|a l IH]; intros H; [reflexivity|]. cbn [find].
  rewrite (H a (or_introl eq_refl)). apply IH. intros x Hx. apply H. now right.
Qed.

Lemma neighbor_ok_transparent (thr : Z) (want_dark : bool) (p : RGBA) :
  alpha_of p < 10 -> neighbor_ok thr want_dark p = false.
Proof.
  intros Ha. unfold neighbor_ok. apply andb_false_iff. right.
  rewrite Z.geb_leb. apply Z.leb_gt. exact Ha.
Qed.

Lemma search_neighbors_transparent (logo : Image) (logo_w logo_h total R C : Z)
  (want_dark : bool) (thr : Z) (offs : list (Z * Z * Z)) :
  transparent_logo logo -> total <> 0 ->
  search_neighbors logo logo_w logo_h total R C want_dark thr offs = Ok None.
Proof.
  intros Htr Ht. induction offs as [|[[dr dc] d2] rest IH]; cbn [search_neighbors].
  - reflexivity.
  - destruct (negb _); [exact IH|].
    destruct (center_xy_ok total logo_w logo_h (R + dr) (C + dc) Ht) as [[nx ny] E].
    rewrite E. unfold bind.
    rewrite (neighbor_ok_transparent thr want_dark _ (Htr nx ny)). exact IH.
Qed.

Lemma pick_logo_color_transparent (logo : Image)
  (logo_w logo_h total qz row col : Z) (want_dark : bool) (thr radius : Z) (center : RGBA) :
  transparent_logo logo ->
  grid_pixel logo logo_w logo_h total (row + qz) (col + qz) = Ok center ->
  pick_logo_color logo logo_w logo_h total qz row col want_dark thr radius
  = Ok (if want_dark then None else Some center).
Proof.
  intros Htr Hc. unfold pick_logo_color. unfold grid_pixel in Hc.
  destruct (center_xy total logo_w logo_h (row + qz) (col + qz)) as [[cx cy]|e] eqn:E;
    unfold bind in *; [|discriminate Hc].
  injection Hc as <-.
  rewrite (is_dark_rgba_transparent thr _ (Htr cx cy)).
  destruct want_dark; cbn [Bool.eqb]; [|reflexivity].
  apply search_neighbors_transparent; [exact Htr|].
  intros ->. unfold center_xy, float_int_truediv in E. cbn in E. discriminate E.
Qed.

Lemma black_toward_dark : adjust_color_toward (0, 0, 0) true blend_strength = (0, 0, 0).
Proof. vm_compute. reflexivity. Qed.

Lemma synthesize_color_transparent (logo : Image) (Lw Lh total qz row col alpha : Z) :
  transparent_logo logo -> total <> 0 ->
  synthesize_color logo Lw Lh total qz row col true alpha = Ok (0, 0, 0, alpha).
Proof.
  intros Htr Ht. unfold synthesize_color. rewrite (float_int_truediv_ok _ _ Ht).
  unfold bind. cbv zeta.
  match goal with |- context [getpixel logo ?x ?y] =>
    assert (Ha := Htr x y); apply Z.ltb_lt in Ha; rewrite Ha end.
  unfold find_opaque. rewrite find_all_false.
  - cbn [rgb_of]. rewrite black_toward_dark. reflexivity.
  - intros p Hp. apply in_flat_map in Hp. destruct Hp as [dy [_ Hp]].
    apply in_map_iff in Hp. destruct Hp as [dx [<- _]].
    rewrite Z.geb_leb. apply Z.leb_gt. apply Htr.
Qed.

(** X17: on a fully transparent logo (every alpha below 10) a module sampled
    dark is painted black (0,0,0) and a module sampled light is painted with
    the colour channels of the logo pixel at the module's centre, both with
    the caller's alpha. *)
Theorem transparent_logo_fill (qr_img logo : Image) (geo : QRGeometry)
  (square_frac : float) (radius threshold_logo : Z) (threshold_qr : option Z)
  (alpha row col : Z) :
  transparent_logo logo ->
  n_modules geo <> 0 -> n_modules geo + 2 * qz_modules geo <> 0 ->
  exists want_dark center xy,
    sample_qr_module_dark qr_img geo threshold_qr row col = Ok want_dark
    /\ grid_pixel logo (width logo) (height logo)
         (n_modules geo + 2 * qz_modules geo)
         (row + qz_modules geo) (col + qz_modules geo) = Ok center
    /\ module_draw qr_img logo geo square_frac radius threshold_logo threshold_qr
         alpha row col
       = Ok (xy, if want_dark then (0, 0, 0, alpha) else with_alpha center alpha).
Proof.
  intros Htr Hn Ht.
  destruct (module_draw_ok qr_img logo geo square_frac radius threshold_logo
              threshold_qr alpha row col Hn Ht) as [xy [r [g [b [Hd Hf]]]]].
  destruct Hf as [want_dark [picked [Hs [Hp Hm]]]].
  destruct (grid_pixel_ok logo (width logo) (height logo)
              (n_modules geo + 2 * qz_modules geo) Ht
              (row + qz_modules geo) (col + qz_modules geo)) as [x [y [_ Hc]]].
  set (center := getpixel logo x y) in *.
  exists want_dark, center, xy. split; [exact Hs|]. split; [exact Hc|].
  rewrite Hd. f_equal. f_equal.
  rewrite (pick_logo_color_transparent _ _ _ _ _ _ _ want_dark threshold_logo radius
             center Htr Hc) in Hp.
  injection Hp as <-. destruct want_dark.
  - rewrite (synthesize_color_transparent _ _ _ _ _ _ _ alpha Htr Ht) in Hm.
    injection Hm as -> -> ->. reflexivity.
  - exact Hm.
Qed.

Lemma transparent_logo_fill_witness :
  exists want_dark center xy,
    sample_qr_module_dark black_6x6 geo_2 None 0 0 = Ok want_dark
    /\ grid_pixel clear_4x4 (width clear_4x4) (height clear_4x4)
         (n_modules geo_2 + 2 * qz_modules geo_2)
         (0 + qz_modules geo_2) (0 + qz_modules geo_2) = Ok center
    /\ module_draw black_6x6 clear_4x4 geo_2 quarter 2 145 None 255 0 0
       = Ok (xy, if want_dark then (0, 0, 0, 255) else with_alpha center 255).
Proof.
  apply (transparent_logo_fill black_6x6 clear_4x4 geo_2 quarter 2 145 None 255 0 0).
  - intros x y. simpl. lia.
  - simpl. lia.
  - simpl. lia.
Defined.

(** ** Finder regions *)

(** X18: the finder test is symmetric in row and column, is false whenever
    both indices are 7 or more (there is no bottom-right finder), and for a
    symbol of at least 7 modules it holds only for modules of the grid. *)
Theorem in_finder_regions (n r c : Z) :
  in_finder n r c = in_finder n c r
  /\ (7 <= r -> 7 <= c -> in_finder n r c = false)
  /\ (7 <= n -> in_finder n r c = true -> 0 <= r < n /\ 0 <= c < n).
Proof.
  unfold in_finder.
  destruct (Z.leb_spec 0 r), (Z.leb_spec r 6), (Z.leb_spec 0 c), (Z.leb_spec c 6),
    (Z.leb_spec (n - 7) r), (Z.leb_spec r (n - 1)),
    (Z.leb_spec (n - 7) c), (Z.leb_spec c (n - 1));
    cbn [andb]; (split; [reflexivity|split; intros; (reflexivity || lia || discriminate)]).
Qed.

(** ** Exact override geometry *)

Lemma float_same_eq (a b : float) : float_same a b = true -> a = b.
Proof.
  destruct a as [s1|s1| |s1 m1 e1], b as [s2|s2| |s2 m2 e2]; cbn [float_same];
    try discriminate; intros H.
  - apply eqb_prop in H. now subst.
  - apply eqb_prop in H. now subst.
  - reflexivity.
  - apply andb_prop in H. destruct H as [Hs H]. apply andb_prop in H.
    destruct H as [Hm He]. apply eqb_prop in Hs. apply Pos.eqb_eq in Hm.
    apply Z.eqb_eq in He. now subst.
Qed.

Lemma aligned_exact_all :
  forallb (fun v =>
    forallb (fun qz =>
      forallb (fun k => aligned_exact k (qr_size v) qz) (range 1 17))
      (range 0 9))
    (range 1 41) = true.
Proof. vm_compute. reflexivity. Qed.

(** X19: for a square image that shows a QR symbol of version 1 to 40 with a
    quiet zone of 0 to 8 modules at a whole number [k] (1 to 16) of pixels
    per module, the override geometry is exact: [module_px] is [k] and the
    content box runs from pixel [qz * k] to pixel [(qz + n) * k - 1] in both
    directions. *)
Theorem override_pixel_aligned (v qz k : Z) :
  1 <= v <= 40 -> 0 <= qz <= 8 -> 1 <= k <= 16 ->
  exists g,
    geo_from_exact_dims (k * (qr_size v + 2 * qz)) (k * (qr_size v + 2 * qz))
      (qr_size v) qz = Ok g
    /\ module_px g = PyFloat.of_int k
    /\ content_box g
       = (qz * k, qz * k, (qz + qr_size v) * k - 1, (qz + qr_size v) * k - 1).
Proof.
  intros Hv Hq Hk.
  assert (H := aligned_exact_all).
  assert (H1 := range_forallb _ _ _ H v ltac:(lia)). cbv beta in H1.
  assert (H2 := range_forallb _ _ _ H1 qz ltac:(lia)). cbv beta in H2.
  assert (H3 := range_forallb _ _ _ H2 k ltac:(lia)). cbv beta in H3.
  clear H H1 H2.
  unfold aligned_exact in H3.
  destruct (geo_from_exact_dims (k * (qr_size v + 2 * qz)) (k * (qr_size v + 2 * qz))
              (qr_size v) qz) as [g|e]; [|discriminate H3].
  exists g. split; [reflexivity|].
  destruct (content_box g) as [[[x_left y_top] x_right] y_bottom].
  apply andb_prop in H3. destruct H3 as [H3 Hf].
  apply andb_prop in H3. destruct H3 as [Ha Hb].
  apply andb_prop in Ha. destruct Ha as [Ha1 Ha2].
  apply andb_prop in Hb. destruct Hb as [Hb1 Hb2].
  apply Z.eqb_eq in Ha1, Ha2, Hb1, Hb2. subst.
  split; [exact (float_same_eq _ _ Hf) | reflexivity].
Qed.

Lemma override_pixel_aligned_witness :
  exists g,
    geo_from_exact_dims (10 * (qr_size 1 + 2 * 4)) (10 * (qr_size 1 + 2 * 4))
      (qr_size 1) 4 = Ok g
    /\ module_px g = PyFloat.of_int 10
    /\ content_box g
       = (4 * 10, 4 * 10, (4 + qr_size 1) * 10 - 1, (4 + qr_size 1) * 10 - 1).
Proof. apply (override_pixel_aligned 1 4 10); lia. Defined.

(** ** The detected quiet zone *)

Lemma detect_qr_geometry_quiet (W H : Z) (gray : GrayArray) (thr : option Z)
  (g : QRGeometry) :
  detect_qr_geometry W H gray thr = Ok g ->
  exists q, float_truediv (PyFloat.of_int (quiet_px W H g)) (module_px g) = Ok q
            /\ qz_modules g = Z.max 0 (PyFloat.round q).
Proof.
  enter_detect gray thr; [discriminate|].
  intros Hd. invert_result Hd.
  assert (Hq := f_equal (fun r => match r with
                                  | Ok g' => qz_modules g'
                                  | Err _ => qz_modules g
                                  end) Hd).
  assert (Hm := f_equal (fun r => match r with
                                  | Ok g' => module_px g'
                                  | Err _ => module_px g
                                  end) Hd).
  assert (Hb := f_equal (fun r => match r with
                                  | Ok g' => content_box g'
                                  | Err _ => content_box g
                                  end) Hd).
  cbv beta iota in Hq, Hm, Hb. cbn [qz_modules module_px content_box] in Hq, Hm, Hb.
  unfold quiet_px. rewrite <- Hb, <- Hm, <- Hq.
  eexists. split; [eassumption | reflexivity].
Qed.

Lemma zero_truediv_rounds_to_0 (y q : float) :
  float_truediv (PyFloat.of_int 0) y = Ok q -> PyFloat.round q = 0.
Proof.
  unfold float_truediv.
  destruct y as [s|s| |s m e]; cbn; intros E; try discriminate E;
    injection E as <-; reflexivity.
Qed.

(** X20: when the bounding box of the dark pixels touches the border of the
    image (the smallest of the four margins is 0), the detected quiet zone
    is 0 modules. *)
Theorem no_margin_no_quiet_zone (W H : Z) (gray : GrayArray) (thr : option Z)
  (g : QRGeometry) :
  detect_qr_geometry W H gray thr = Ok g ->
  quiet_px W H g = 0 ->
  qz_modules g = 0.
Proof.
  intros Hd Hz. destruct (detect_qr_geometry_quiet W H gray thr g Hd) as [q [Hq ->]].
  rewrite Hz in Hq. now rewrite (zero_truediv_rounds_to_0 _ _ Hq).
Qed.

Lemma no_margin_no_quiet_zone_witness : qz_modules geo_6x6 = 0.
Proof.
  apply (no_margin_no_quiet_zone 6 6 gray_6x6 (Some 128) geo_6x6);
    vm_compute; reflexivity.
Defined.

(** ** A logo of one colour *)

Lemma search_neighbors_uniform (logo : Image) (logo_w logo_h total R C : Z)
  (want_dark : bool) (thr : Z) (offs : list (Z * Z * Z)) (p : RGBA) :
  uniform_logo logo p -> total <> 0 ->
  neighbor_ok thr want_dark p = false ->
  search_neighbors logo logo_w logo_h total R C want_dark thr offs = Ok None.
Proof.
  intros Hu Ht Hno. induction offs as [|[[dr dc] d2] rest IH]; cbn [search_neighbors].
  - reflexivity.
  - destruct (negb _); [exact IH|].
    destruct (center_xy_ok total logo_w logo_h (R + dr) (C + dc) Ht) as [[nx ny] E].
    rewrite E. unfold bind. rewrite (Hu nx ny), Hno. exact IH.
Qed.

Lemma neighbor_ok_opaque (thr : Z) (want_dark : bool) (p : RGBA) :
  10 <= alpha_of p ->
  neighbor_ok thr want_dark p = Bool.eqb (is_dark_rgba thr p) want_dark.
Proof.
  destruct p as [[[r g] b] a]. cbn [alpha_of]. intros Ha.
  unfold neighbor_ok, is_dark_rgba. cbn [rgb_of alpha_of].
  destruct (Z.ltb_spec a 10); [lia|].
  rewrite Z.geb_leb. destruct (Z.leb_spec 10 a); [|lia]. apply andb_true_r.
Qed.

Lemma pick_logo_color_uniform (logo : Image)
  (logo_w logo_h total qz row col : Z) (want_dark : bool) (thr radius : Z) (p : RGBA) :
  uniform_logo logo p -> 10 <= alpha_of p -> total <> 0 ->
  pick_logo_color logo logo_w logo_h total qz row col want_dark thr radius
  = Ok (if Bool.eqb (is_dark_rgba thr p) want_dark then Some p else None).
Proof.
  intros Hu Ha Ht. unfold pick_logo_color.
  destruct (center_xy_ok total logo_w logo_h (row + qz) (col + qz) Ht) as [[cx cy] E].
  rewrite E. unfold bind. rewrite (Hu cx cy).
  destruct (Bool.eqb (is_dark_rgba thr p) want_dark) eqn:Hm; [reflexivity|].
  apply (search_neighbors_uniform _ _ _ _ _ _ _ _ _ p Hu Ht).
  rewrite (neighbor_ok_opaque _ _ _ Ha). exact Hm.
Qed.

Lemma synthesize_color_uniform (logo : Image) (Lw Lh total qz row col : Z)
  (want_dark : bool) (alpha : Z) (p : RGBA) :
  uniform_logo logo p -> 10 <= alpha_of p -> total <> 0 ->
  synthesize_color logo Lw Lh total qz row col want_dark alpha
  = Ok (pushed p want_dark alpha).
Proof.
  intros Hu Ha Ht. unfold synthesize_color. rewrite (float_int_truediv_ok _ _ Ht).
  unfold bind. cbv zeta. rewrite !Hu.
  destruct (Z.ltb_spec (alpha_of p) 10); [lia|]. unfold pushed.
  destruct (adjust_color_toward (rgb_of p) want_dark blend_strength) as [[r g] b].
  reflexivity.
Qed.

(** X21: on a logo of a single opaque colour (alpha at least 10) every
    module is painted either with that colour, when its darkness is the one
    the QR module wants, or else with that colour pushed toward black or
    white by the blend strength; in both cases with the caller's alpha. *)
Theorem uniform_logo_fill (qr_img logo : Image) (geo : QRGeometry)
  (square_frac : float) (radius threshold_logo : Z) (threshold_qr : option Z)
  (alpha row col : Z) (p : RGBA) :
  uniform_logo logo p -> 10 <= alpha_of p ->
  n_modules geo <> 0 -> n_modules geo + 2 * qz_modules geo <> 0 ->
  exists want_dark xy,
    sample_qr_module_dark qr_img geo threshold_qr row col = Ok want_dark
    /\ module_draw qr_img logo geo square_frac radius threshold_logo threshold_qr
         alpha row col
       = Ok (xy, if Bool.eqb (is_dark_rgba threshold_logo p) want_dark
                 then with_alpha p alpha
                 else pushed p want_dark alpha).
Proof.
  intros Hu Ha Hn Ht.
  destruct (module_draw_ok qr_img logo geo square_frac radius threshold_logo
              threshold_qr alpha row col Hn Ht) as [xy [r [g [b [Hd Hf]]]]].
  destruct Hf as [want_dark [picked [Hs [Hp Hm]]]].
  exists want_dark, xy. split; [exact Hs|].
  rewrite Hd. apply f_equal. apply f_equal.
  rewrite (pick_logo_color_uniform _ _ _ _ _ _ _ want_dark threshold_logo radius
             p Hu Ha Ht) in Hp.
  injection Hp as <-.
  destruct (Bool.eqb (is_dark_rgba threshold_logo p) want_dark).
  - exact Hm.
  - rewrite (synthesize_color_uniform _ _ _ _ _ _ _ want_dark alpha p Hu Ha Ht) in Hm.
    injection Hm as Hm. symmetry. exact Hm.
Qed.

Lemma uniform_logo_fill_witness :
  exists want_dark xy,
    sample_qr_module_dark black_6x6 geo_2 None 0 0 = Ok want_dark
    /\ module_draw black_6x6 blue_4x4 geo_2 quarter 2 145 None 255 0 0
       = Ok (xy, if Bool.eqb (is_dark_rgba 145 (0, 0, 255, 255)) want_dark
                 then with_alpha (0, 0, 255, 255) 255
                 else pushed (0, 0, 255, 255) want_dark 255).
Proof.
  apply (uniform_logo_fill black_6x6 blue_4x4 geo_2 quarter 2 145 None 255 0 0
           (0, 0, 255, 255)).
  - intros x y. reflexivity.
  - simpl. lia.
  - simpl. lia.
  - simpl. lia.
Defined.
